(** * terminal-mcp-server: the session pool and execution engine

    A shallow embedding of [src/executor.ts] (class [CommandExecutor]).

    The executor keeps one table, [sessions], from session keys to
    session records.  Everything the class does to the outside world
    (reading the key file, opening an SSH connection, sleeping between
    retries, arming and clearing timers, closing a client, running a
    command) is recorded, in program order, in a trace of [Event]s that
    is threaded through the state.  What the outside world answers (does
    the key file read succeed, does the connection become ready, what
    does the remote stream deliver) is an input of each operation.

    The class is asynchronous; one call is modelled from its start to
    the settlement of its promise, with no other call and no timer
    callback interleaved.  The timer callback is [disconnectSession].
    Log lines are not recorded.  The table is a finite map, which keeps
    no insertion order; [disconnect], which walks the table in that
    order at shutdown, takes the list of keys as an input.

    The second part embeds [src/index.ts]: the listing of host aliases
    and the handler of the [execute_command] request. *)

From Stdlib Require Import ZArith Ascii String List.
From stdpp Require Import base option list strings gmap fin_maps.

Local Open Scope string_scope.

(** ** Strings *)

(** The double quote and the backslash, the two characters the remote
    command builder inserts. *)
Definition dquote : ascii := "034"%char.
Definition backslash : ascii := "092"%char.
Definition q : string := String dquote EmptyString.
Definition bq : string := String backslash (String dquote EmptyString).

(** The global replace of the double quote by backslash, double quote
    ([String.prototype.replace] with a [g] pattern); nothing else
    changes. *)
Fixpoint escape_dquotes (s : string) : string :=
  match s with
  | EmptyString => EmptyString
  | String c r =>
      if Ascii.eqb c dquote
      then String backslash (String dquote (escape_dquotes r))
      else String c (escape_dquotes r)
  end.

(** [hay.includes(needle)]. *)
Fixpoint includes (needle hay : string) : bool :=
  String.prefix needle hay
  || match hay with
     | EmptyString => false
     | String _ r => includes needle r
     end.

(** [arr.join(sep)]. *)
Fixpoint join (sep : string) (l : list string) : string :=
  match l with
  | [] => ""
  | [x] => x
  | x :: r => x +:+ sep +:+ join sep r
  end.

(** The white space of [trim] and of the pattern [\s] that is one byte
    long: tab, line feed, vertical tab, form feed, carriage return and
    space. *)
Definition is_space (c : ascii) : bool :=
  let n := nat_of_ascii c in
  (n =? 32)%nat || ((9 <=? n)%nat && (n <=? 13)%nat).

(** Strings are the UTF-8 bytes of the JavaScript strings.  The other
    white space characters take two or three bytes: U+00A0, U+1680,
    U+2000 to U+200A, U+2028, U+2029, U+202F, U+205F, U+3000 and
    U+FEFF.  [wide_space_width] is the number of bytes of such a
    character at the head of the string, 0 when there is none. *)
Definition wide_space_width (s : string) : nat :=
  match s with
  | String c1 (String c2 r) =>
      let n1 := nat_of_ascii c1 in
      let n2 := nat_of_ascii c2 in
      if (n1 =? 194)%nat && (n2 =? 160)%nat then 2
      else
        match r with
        | String c3 _ =>
            let n3 := nat_of_ascii c3 in
            if (n1 =? 225)%nat && (n2 =? 154)%nat && (n3 =? 128)%nat then 3
            else if (n1 =? 226)%nat && (n2 =? 128)%nat
                    && (((128 <=? n3)%nat && (n3 <=? 138)%nat)
                        || (n3 =? 168)%nat || (n3 =? 169)%nat || (n3 =? 175)%nat) then 3
            else if (n1 =? 226)%nat && (n2 =? 129)%nat && (n3 =? 159)%nat then 3
            else if (n1 =? 227)%nat && (n2 =? 128)%nat && (n3 =? 128)%nat then 3
            else if (n1 =? 239)%nat && (n2 =? 187)%nat && (n3 =? 191)%nat then 3
            else 0
        | EmptyString => 0
        end
  | _ => 0
  end.

(** The number of bytes of the white space character at the head of
    the string, 0 when it does not start with white space. *)
Definition space_width (s : string) : nat :=
  match s with
  | String c _ => if is_space c then 1 else wide_space_width s
  | EmptyString => 0
  end.

Fixpoint trim_start (s : string) : string :=
  match s with
  | EmptyString => EmptyString
  | String c r =>
      if is_space c then trim_start r
      else
        match wide_space_width s, r with
        | 2, String _ r2 => trim_start r2
        | 3, String _ (String _ r3) => trim_start r3
        | _, _ => s
        end
  end.

Fixpoint string_rev_onto (s acc : string) : string :=
  match s with
  | EmptyString => acc
  | String c r => string_rev_onto r (String c acc)
  end.

Definition string_rev (s : string) : string := string_rev_onto s EmptyString.

(** The same test on a string read backwards: the width of the wide
    white space character that ends the original string. *)
Definition wide_space_width_rev (s : string) : nat :=
  match s with
  | String a (String b r) =>
      if (wide_space_width (String b (String a EmptyString)) =? 2)%nat then 2
      else
        match r with
        | String c _ =>
            if (wide_space_width (String c (String b (String a EmptyString))) =? 3)%nat
            then 3 else 0
        | EmptyString => 0
        end
  | _ => 0
  end.

Fixpoint trim_start_rev (s : string) : string :=
  match s with
  | EmptyString => EmptyString
  | String c r =>
      if is_space c then trim_start_rev r
      else
        match wide_space_width_rev s, r with
        | 2, String _ r2 => trim_start_rev r2
        | 3, String _ (String _ r3) => trim_start_rev r3
        | _, _ => s
        end
  end.

Definition trim_end (s : string) : string :=
  string_rev (trim_start_rev (string_rev s)).

Definition trim (s : string) : string := trim_end (trim_start s).

(** JavaScript truthiness of a string that may be [undefined]. *)
Definition truthy (o : option string) : bool :=
  match o with
  | Some s => negb (String.eqb s "")
  | None => false
  end.

(** [a || b] on such values. *)
Definition or_else (o : option string) (d : string) : string :=
  match o with
  | Some s => if String.eqb s "" then d else s
  | None => d
  end.

(** ** Plain objects used as maps: [Record<string, string>]

    An object keeps its keys in insertion order, and [Object.entries]
    lists them in that order, so an environment is an association list
    without repeated keys.  (Keys that are array indices are listed
    first by JavaScript; environment variable names are not.) *)

Definition Env : Type := list (string * string).

Fixpoint obj_get (k : string) (o : Env) : option string :=
  match o with
  | [] => None
  | (k', v) :: r => if String.eqb k k' then Some v else obj_get k r
  end.

(** [o[k] = v]: overwrite in place, or append a new key. *)
Fixpoint obj_set (k v : string) (o : Env) : Env :=
  match o with
  | [] => [(k, v)]
  | (k', v') :: r =>
      if String.eqb k k' then (k', v) :: r else (k', v') :: obj_set k v r
  end.

(** Copy the entries of [src], in order, onto [target]. *)
Definition obj_assign (target src : Env) : Env :=
  fold_left (fun o kv => obj_set kv.1 kv.2 o) src target.

(** [{ ...a }] and [{ ...a, ...b }]. *)
Definition spread1 (a : Env) : Env := obj_assign [] a.
Definition spread2 (a b : Env) : Env := obj_assign (obj_assign [] a) b.

(** ** Data model *)

(** An [ssh2] client is an event emitter; the executor only ever asks it
    for its listener counts, so that is what a client carries besides
    its identity.  The executor adds listeners when it creates a client
    and never removes one. *)
Record Client := mkClient {
  cid : nat;
  readyListeners : nat;
  dataListeners : nat
}.

(** [new Client()] followed by [.on('ready', ...)] and
    [.on('error', ...)], as [connect] does. *)
Definition new_client (id : nat) : Client :=
  {| cid := id; readyListeners := 1; dataListeners := 0 |}.

(** One entry of the [sessions] map.  [s_connection] is the identity of
    the client whose connect promise is stored; [s_timeout] is the
    handle of the armed idle timer. *)
Record Session := mkSession {
  s_client : option Client;
  s_connection : option nat;
  s_timeout : option nat;
  s_host : option string;
  s_env : option Env
}.

Definition set_timeout (t : option nat) (s : Session) : Session :=
  {| s_client := s_client s; s_connection := s_connection s;
     s_timeout := t; s_host := s_host s; s_env := s_env s |}.

Definition set_env (e : option Env) (s : Session) : Session :=
  {| s_client := s_client s; s_connection := s_connection s;
     s_timeout := s_timeout s; s_host := s_host s; s_env := e |}.

(** A JavaScript [Error]; only its message is observed. *)
Record Error := mkError { message : string }.

(** The number that [parseInt(value, 10)] returns, kept as the call
    that produces it: the result is a double (possibly NaN), and
    nothing here depends on its value. *)
Inductive JsNumber : Type :=
| parseInt10 (value : string).

(** The object handed to [client.connect], without the key bytes. *)
Record ConnectionConfig := mkConnectionConfig {
  cc_host : string;
  cc_port : option JsNumber;
  cc_username : string;
  cc_passphrase : option string;
  cc_keepaliveInterval : Z;
  cc_timeout : Z
}.

Inductive Event : Type :=
| EvReadKey (path : string)
| EvConnect (c : nat) (config : ConnectionConfig)
| EvDelay (ms : Z)
| EvSetTimeout (t : nat) (key : string) (ms : Z)
| EvClearTimeout (t : nat)
| EvClientEnd (c : nat)
| EvClientExec (c : nat) (cmd : string)
| EvSpawn (cmd : string) (env : Env) (cwd : option string).

Record State := mkState {
  sessions : gmap string Session;
  nextClient : nat;
  nextTimer : nat;
  trace : list Event
}.

Definition emit (e : Event) (st : State) : State :=
  {| sessions := sessions st; nextClient := nextClient st;
     nextTimer := nextTimer st; trace := trace st ++ [e] |}.

Definition with_sessions (m : gmap string Session) (st : State) : State :=
  {| sessions := m; nextClient := nextClient st;
     nextTimer := nextTimer st; trace := trace st |}.

Definition init : State :=
  {| sessions := ∅; nextClient := 0; nextTimer := 0; trace := [] |}.

Definition sessionTimeout : Z := 20 * 60 * 1000.
Definition maxRetries : nat := 3.
Definition retryDelayMs : Z := 2000.

(** ** [getSessionKey] *)

Definition getSessionKey (host : option string) : string :=
  or_else host "local".

(** ** [resetTimeout] *)

Definition resetTimeout (sessionKey : string) (st : State) : State :=
  match sessions st !! sessionKey with
  | None => st
  | Some session =>
      let st1 :=
        match s_timeout session with
        | Some t => emit (EvClearTimeout t) st
        | None => st
        end in
      let t' := nextTimer st1 in
      let st2 := emit (EvSetTimeout t' sessionKey sessionTimeout) st1 in
      {| sessions := <[sessionKey := set_timeout (Some t') session]> (sessions st2);
         nextClient := nextClient st2;
         nextTimer := S t';
         trace := trace st2 |}
  end.

(** ** [disconnectSession]

    This is also the body of the idle timer's callback. *)

Definition disconnectSession (sessionKey : string) (st : State) : State :=
  match sessions st !! sessionKey with
  | None => st
  | Some session =>
      let st1 :=
        match s_client session with
        | Some c => emit (EvClientEnd (cid c)) st
        | None => st
        end in
      let st2 :=
        match s_timeout session with
        | Some t => emit (EvClearTimeout t) st1
        | None => st1
        end in
      with_sessions (delete sessionKey (sessions st2)) st2
  end.

(** ** [parseSshConfig]

    Reading [~/.ssh/config] and the [ssh-config] library's [parse] and
    [find] are outside the repository; their joint answer for an alias
    is an input.  The loop over the lines of the matching block is the
    repository's. *)

Record SshConfig := mkSshConfig {
  hostname : option string;
  user : option string;
  identityFile : option string;
  passphrase : option string;
  port : option JsNumber
}.

Definition emptyConfig : SshConfig :=
  {| hostname := None; user := None; identityFile := None;
     passphrase := None; port := None |}.

(** A line of the host block that [find] returns: a directive with its
    [param] and [value], or a comment line, which has no [param]. *)
Inductive ConfigItem : Type :=
| Directive (param value : string)
| Comment (content : string).

Inductive ConfigLookup : Type :=
| ConfigUnreadable                       (* [readFile] threw *)
| ConfigMalformed                        (* [parse] or [find] threw *)
| ConfigNoMatch                          (* [find] returned nothing *)
| ConfigMatch (config : list ConfigItem).

(** [toLowerCase], on the letters A to Z.  The result is only compared
    with directive names, which are ASCII and which no other character
    lower-cases into; the [i] flag of a pattern without the [u] flag
    does not relate a letter to a character outside ASCII either. *)
Definition lower_ascii (c : ascii) : ascii :=
  let n := nat_of_ascii c in
  if ((65 <=? n)%nat && (n <=? 90)%nat)%bool then ascii_of_nat (n + 32) else c.

Fixpoint toLowerCase (s : string) : string :=
  match s with
  | EmptyString => EmptyString
  | String c r => String (lower_ascii c) (toLowerCase r)
  end.

Definition apply_directive (parsed : SshConfig) (item : string * string) : SshConfig :=
  let key := toLowerCase item.1 in
  let value := item.2 in
  if String.eqb key "hostname" then
    {| hostname := Some value; user := user parsed; identityFile := identityFile parsed;
       passphrase := passphrase parsed; port := port parsed |}
  else if String.eqb key "user" then
    {| hostname := hostname parsed; user := Some value; identityFile := identityFile parsed;
       passphrase := passphrase parsed; port := port parsed |}
  else if String.eqb key "identityfile" then
    {| hostname := hostname parsed; user := user parsed; identityFile := Some value;
       passphrase := passphrase parsed; port := port parsed |}
  else if String.eqb key "passphrase" then
    {| hostname := hostname parsed; user := user parsed; identityFile := identityFile parsed;
       passphrase := Some value; port := port parsed |}
  else if String.eqb key "port" then
    {| hostname := hostname parsed; user := user parsed; identityFile := identityFile parsed;
       passphrase := passphrase parsed; port := Some (parseInt10 value) |}
  else parsed.

(** [hostConfig.config.forEach(...)]; [None] when the callback throws:
    on a comment line [item.param] is undefined and
    [item.param.toLowerCase()] is a type error. *)
Fixpoint forEachItem (config : list ConfigItem) (parsed : SshConfig) : option SshConfig :=
  match config with
  | [] => Some parsed
  | Directive param value :: r => forEachItem r (apply_directive parsed (param, value))
  | Comment _ :: _ => None
  end.

(** Every failure, the one of the loop included, ends in the [catch]
    that returns the empty configuration. *)
Definition parseSshConfig (found : ConfigLookup) : SshConfig :=
  match found with
  | ConfigUnreadable => emptyConfig
  | ConfigMalformed => emptyConfig
  | ConfigNoMatch => emptyConfig
  | ConfigMatch config => default emptyConfig (forEachItem config emptyConfig)
  end.

(** ** [connect] *)

(** What [fs.readFileSync] throws: a system error with an optional
    [code] and a message. *)
Record FsError := mkFsError { fs_code : option string; fs_message : string }.

Inductive KeyRead : Type :=
| KeyOk
| KeyFail (e : FsError).

(** How the connection promise settles.  It is rejected when the client
    emits ['error'] before ['ready'], and also when [client.connect]
    itself throws inside the promise, as [ssh2] does for a key it
    cannot parse; the code after [await] sees the same rejection. *)
Inductive ConnOutcome : Type :=
| ConnReady                 (* resolved: the client emits ['ready'] *)
| ConnError (e : Error).    (* rejected with [e] *)

(** The environment of one [connect] call: the configuration found for
    the alias, the default key path
    [path.join(os.homedir(), '.ssh', 'id_rsa')] (computed by Node, not
    by the repository), and, for the iteration numbered [i] of the
    retry loop, what reading the key file and what dialling answer. *)
Record Network := mkNetwork {
  lookupConfig : ConfigLookup;
  defaultKeyPath : string;
  readKey : nat -> KeyRead;
  dial : nat -> ConnOutcome
}.

Inductive Result (A : Type) : Type :=
| Ok (a : A)
| Throw (e : Error).
Arguments Ok {A} a.
Arguments Throw {A} e.

Definition keyReadError (privateKeyPath : string) (e : FsError) : Error :=
  if bool_decide (fs_code e = Some "ENOENT") then
    mkError ("SSH key file (" +:+ privateKeyPath +:+
             ") does not exist. Please ensure SSH key-based authentication is set up.")
  else if includes "unsupported format" (fs_message e)
          || includes "Cannot parse privateKey" (fs_message e) then
    mkError ("Unsupported SSH key format for key at " +:+ privateKeyPath +:+ ": " +:+
             fs_message e +:+ ". If your key is encrypted, ensure " +:+
             q +:+ "passphrase" +:+ q +:+
             " is provided in your SSH config or the key is not encrypted.")
  else
    mkError ("Failed to read SSH private key from " +:+ privateKeyPath +:+ ": " +:+
             fs_message e).

(** The retry loop [for (let i = 0; i < this.maxRetries; i++)].  [fuel]
    is [maxRetries - i], the number of iterations the loop test still
    allows. *)
Fixpoint connect_loop (net : Network) (sessionKey : string)
    (connectionConfig : ConnectionConfig) (privateKeyPath : string)
    (fuel i : nat) (st : State) : State * Result unit :=
  match fuel with
  | 0 => (st, Ok tt)
  | S fuel' =>
      let st := emit (EvReadKey privateKeyPath) st in
      match readKey net i with
      | KeyFail e => (st, Throw (keyReadError privateKeyPath e))
      | KeyOk =>
          let client := new_client (nextClient st) in
          let st := {| sessions := sessions st; nextClient := S (nextClient st);
                       nextTimer := nextTimer st; trace := trace st |} in
          let st := emit (EvConnect (cid client) connectionConfig) st in
          match dial net i with
          | ConnReady =>
              (* the ['ready'] handler runs first, then the code after [await] *)
              let st := resetTimeout sessionKey st in
              let handle :=
                {| s_client := Some client; s_connection := Some (cid client);
                   s_timeout := None; s_host := Some (cc_host connectionConfig);
                   s_env := None |} in
              (with_sessions (<[sessionKey := handle]> (sessions st)) st, Ok tt)
          | ConnError err =>
              if (i <? maxRetries - 1)%nat then
                connect_loop net sessionKey connectionConfig privateKeyPath fuel' (S i)
                  (emit (EvDelay retryDelayMs) st)
              else (st, Throw err)
          end
      end
  end.

(** The test on an existing entry at the head of [connect]: [inl] when
    the stored connection is returned as it is, [inr] (after dropping an
    entry whose client has lost its listeners) when a new connection is
    to be made. *)
Definition checkExisting (sessionKey : string) (st : State) : State + State :=
  match sessions st !! sessionKey with
  | Some {| s_connection := Some _; s_client := Some c |} =>
      if (0 <? readyListeners c)%nat || (0 <? dataListeners c)%nat
      then inl st
      else inr (with_sessions (delete sessionKey (sessions st)) st)
  | _ => inr st
  end.

Definition actualHostOf (net : Network) (hostAlias : string) : string :=
  or_else (hostname (parseSshConfig (lookupConfig net))) hostAlias.

(** [sshConfig.identityFile || path.join(os.homedir(), '.ssh', 'id_rsa')]. *)
Definition privateKeyPathOf (net : Network) : string :=
  or_else (identityFile (parseSshConfig (lookupConfig net))) (defaultKeyPath net).

(** The user defaults to [root]. *)
Definition connectionConfigOf (net : Network) (hostAlias : string) : ConnectionConfig :=
  let sshConfig := parseSshConfig (lookupConfig net) in
  {| cc_host := actualHostOf net hostAlias;
     cc_port := port sshConfig;
     cc_username := or_else (user sshConfig) "root";
     cc_passphrase := passphrase sshConfig;
     cc_keepaliveInterval := 60000;
     cc_timeout := 10000 |}.

Definition connect (net : Network) (hostAlias : string) (st : State) : State * Result unit :=
  let sessionKey := getSessionKey (Some hostAlias) in
  match checkExisting sessionKey st with
  | inl st => (st, Ok tt)
  | inr st =>
      connect_loop net sessionKey (connectionConfigOf net hostAlias) (privateKeyPathOf net)
        maxRetries 0 st
  end.

(** ** [isConnectionActive] *)

Inductive ProbeOutcome : Type :=
| ProbeThrows (e : Error)        (* [client.exec] throws: the promise rejects *)
| ProbeExecError (e : Error)     (* the callback receives [err] *)
| ProbeClosed (stdout : string)  (* data collected until ['close'] *)
| ProbeStreamError (e : Error).  (* the stream emits ['error'] *)

Definition pingCommand : string := "echo " +:+ q +:+ "ping" +:+ q.

Definition isConnectionActive (client : option Client) (p : ProbeOutcome)
    (st : State) : State * Result bool :=
  match client with
  | None => (st, Ok false)
  | Some c =>
      let st := emit (EvClientExec (cid c) pingCommand) st in
      match p with
      | ProbeThrows e => (st, Throw e)
      | ProbeExecError _ => (st, Ok false)
      | ProbeClosed stdout => (st, Ok (String.eqb (trim stdout) "ping"))
      | ProbeStreamError _ => (st, Ok false)
      end
  end.

(** ** [executeCommand] *)

Record Options := mkOptions {
  opt_host : option string;
  opt_env : option Env
}.

Record Output := mkOutput { stdout : string; stderr : string }.

(** How the promise returned by [executeCommand] ends. *)
Inductive Outcome : Type :=
| Resolved (o : Output)
| Rejected (e : Error)
| Pending.

(** What the remote channel delivers, in order.  The executor listens
    to stdout data, stderr data, and the stderr stream's ['close'] and
    ['error']; it has no listener for the exit status. *)
Inductive StreamEvent : Type :=
| SData (d : string)
| SErrData (d : string)
| SExit (code : Z)
| SClose
| SError (e : Error).

Inductive ExecOutcome : Type :=
| ExecFail (e : Error)
| ExecStream (evs : list StreamEvent).

(** The [error] argument of [child_process.exec]'s callback: [code] is
    the exit status, a string for a spawn failure, or absent when the
    child was killed by a signal. *)
Inductive ErrCode : Type :=
| CodeNum (n : Z)
| CodeStr (s : string).

Record ExecException := mkExecException {
  e_code : option ErrCode;
  e_message : string
}.

(** The arguments [child_process.exec] passes to its callback when the
    child has ended. *)
Record LocalOutcome := mkLocalOutcome {
  l_error : option ExecException;
  l_stdout : string;
  l_stderr : string
}.

(** The environment of one [executeCommand] call. *)
Record World := mkWorld {
  net : Network;
  probe : ProbeOutcome;
  remote : ExecOutcome;
  processEnv : Env;
  local : LocalOutcome
}.

Definition exportStatement (kv : string * string) : string :=
  let s := "export " +:+ kv.1 +:+ "=" +:+ q +:+ escape_dquotes kv.2 +:+ q in
  or_else (Some s) "".

Definition envSetup (env : Env) : string :=
  join " && " (map exportStatement env).

Definition fullCommand (env : Env) (command : string) : string :=
  let es := envSetup env in
  if truthy (Some es) then es +:+ " && " +:+ command else command.

(** The string handed to [client.exec]. *)
Definition remoteCommandLine (env : Env) (command : string) : string :=
  "/bin/bash --login -c " +:+ q +:+ escape_dquotes (fullCommand env command) +:+ q.

(** The stream handlers.  The promise is settled by the first ['close']
    or ['error']; handlers keep running on later events, but a settled
    promise stays as it is. *)
Fixpoint run_stream (sessionKey : string) (evs : list StreamEvent)
    (out err : string) (settled : option Outcome) (st : State) : State * Outcome :=
  match evs with
  | [] => (st, default Pending settled)
  | SData d :: r =>
      run_stream sessionKey r (out +:+ d) err settled (resetTimeout sessionKey st)
  | SErrData d :: r => run_stream sessionKey r out (err +:+ d) settled st
  | SExit _ :: r => run_stream sessionKey r out err settled st
  | SClose :: r =>
      let now := Resolved {| stdout := out; stderr := err |} in
      run_stream sessionKey r out err (Some (default now settled)) st
  | SError e :: r =>
      run_stream sessionKey r out err (Some (default (Rejected e) settled)) st
  end.

Definition noSessionError (host : string) : Error :=
  mkError ("无法创建到 " +:+ host +:+ " 的SSH会话").

(** Lines 177 to 195 of [executeCommand]: decide between the stored
    session and a new connection, and end with the client the command
    will run on. *)
Definition obtainSession (w : World) (sessionKey host : string)
    (st : State) : State * Result Client :=
  let sessionData := sessions st !! sessionKey in
  (* the chain of [||] stops at the first operand that holds *)
  let '(st, need) :=
    match sessionData with
    | None => (st, Ok true)
    | Some s =>
        if negb (bool_decide (s_host s = Some host)) then (st, Ok true)
        else match s_client s with
             | None => (st, Ok true)
             | Some c =>
                 match isConnectionActive (Some c) (probe w) st with
                 | (st, Ok alive) => (st, Ok (negb alive))
                 | (st, Throw e) => (st, Throw e)
                 end
             end
    end in
  match need with
  | Throw e => (st, Throw e)
  | Ok needNewConnection =>
      let '(st, sessionData, connected) :=
        if needNewConnection then
          match connect (net w) host st with
          | (st, Ok _) => (st, sessions st !! sessionKey, Ok tt)
          | (st, Throw e) => (st, sessionData, Throw e)
          end
        else (st, sessionData, Ok tt) in
      match connected with
      | Throw e => (st, Throw e)
      | Ok _ =>
          match sessionData ≫= s_client with
          | None => (st, Throw (noSessionError host))
          | Some c => (st, Ok c)
          end
      end
  end.

(** Lines 197 to 230: arm the idle timer, send the command, collect the
    streams. *)
Definition runRemote (w : World) (sessionKey command : string) (env : Env)
    (c : Client) (st : State) : State * Outcome :=
  let st := resetTimeout sessionKey st in
  let st := emit (EvClientExec (cid c) (remoteCommandLine env command)) st in
  match remote w with
  | ExecFail e => (st, Rejected e)
  | ExecStream evs => run_stream sessionKey evs "" "" None st
  end.

Definition executeRemote (w : World) (sessionKey command host : string) (env : Env)
    (st : State) : State * Outcome :=
  match obtainSession w sessionKey host st with
  | (st, Throw e) => (st, Rejected e)
  | (st, Ok c) => runRemote w sessionKey command env c st
  end.

(** [code === 0]. *)
Definition code_is_zero (c : option ErrCode) : bool :=
  match c with
  | Some (CodeNum 0) => true
  | _ => false
  end.

Definition localResult (l : LocalOutcome) : Output :=
  match l_error l with
  | Some error =>
      if negb (code_is_zero (e_code error))
      then {| stdout := l_stdout l; stderr := or_else (Some (l_stderr l)) (e_message error) |}
      else {| stdout := l_stdout l; stderr := l_stderr l |}
  | None => {| stdout := l_stdout l; stderr := l_stderr l |}
  end.

(** Lines 232 to 274, for a child that runs to its end: [exec] calls
    back once, with the arguments [local w], and the callback resolves
    the promise in both of its branches.  A child that never ends, and
    an [exec] that throws, are not modelled. *)
Definition executeLocal (w : World) (sessionKey command : string) (env : Env)
    (st : State) : State * Outcome :=
  let '(st, sessionEnv) :=
    match sessions st !! sessionKey with
    | None =>
        let sessionData :=
          {| s_client := None; s_connection := None; s_timeout := None;
             s_host := None; s_env := Some (spread1 env) |} in
        (with_sessions (<[sessionKey := sessionData]> (sessions st)) st, env)
    | Some sessionData =>
        let merged := spread2 (default [] (s_env sessionData)) env in
        (with_sessions (<[sessionKey := set_env (Some merged) sessionData]> (sessions st)) st,
         merged)
    end in
  let st := resetTimeout sessionKey st in
  let envVars := spread2 (processEnv w) sessionEnv in
  let defaultDir := obj_get "DEFAULT_DIR" (processEnv w) in
  let st := emit (EvSpawn command envVars defaultDir) st in
  (st, Resolved (localResult (local w))).

Definition executeCommand (w : World) (command : string) (options : Options)
    (st : State) : State * Outcome :=
  let host := opt_host options in
  let env := default [] (opt_env options) in
  let sessionKey := getSessionKey host in
  if truthy host
  then executeRemote w sessionKey command (default "" host) env st
  else executeLocal w sessionKey command env st.

(** ** [disconnect]

    Shutdown walks [Array.from(this.sessions.keys())], the keys in
    insertion order, and calls [disconnectSession] on each (the calls
    contain no [await], so each runs to its end before the next
    starts); then the table is cleared.  The finite map keeps no
    insertion order, so the list of keys is an input. *)

Definition disconnect (keys : list string) (st : State) : State :=
  with_sessions ∅ (fold_left (fun st k => disconnectSession k st) keys st).

(** * [src/index.ts] *)

(** ** [parseSshConfigAliases] *)

Definition newline : ascii := "010"%char.

(** [content.split('\n')]. *)
Fixpoint split_lines (s : string) : list string :=
  match s with
  | EmptyString => [""]
  | String c r =>
      if Ascii.eqb c newline then "" :: split_lines r
      else match split_lines r with
           | h :: t => String c h :: t
           | [] => [String c ""]
           end
  end.

(** The class [[^\s*?!]] of the alias pattern, for one-byte characters. *)
Definition is_alias_char (c : ascii) : bool :=
  negb (is_space c
        || Ascii.eqb c "*"%char || Ascii.eqb c "?"%char || Ascii.eqb c "!"%char).

(** The longest run of characters of that class at the head of the
    string: it stops at white space, one byte or wide, and at the three
    pattern characters. *)
Fixpoint take_alias (s : string) : string :=
  match s with
  | EmptyString => EmptyString
  | String c r =>
      if is_alias_char c && (wide_space_width s =? 0)%nat
      then String c (take_alias r)
      else EmptyString
  end.

(** [line.match(/^host\s+([^\s*?!]+)/i)], giving the captured group.
    The white space is matched greedily; giving some of it back cannot
    help, since the class excludes white space. *)
Definition match_host (line : string) : option string :=
  if String.eqb (toLowerCase (substring 0 4 line)) "host" then
    let rest := substring 4 (String.length line - 4) line in
    if (0 <? space_width rest)%nat then
      match take_alias (trim_start rest) with
      | EmptyString => None
      | name => Some name
      end
    else None
  else None.

Definition startsWith (pre s : string) : bool := String.prefix pre s.

(** The body of the loop over the lines. *)
Definition alias_of_line (line : string) : list string :=
  let trimmedLine := trim line in
  if String.eqb trimmedLine "" || startsWith "#" trimmedLine then []
  else match match_host trimmedLine with
       | Some name => if String.eqb name "" then [] else [name]
       | None => []
       end.

Definition aliases_of_lines (lines : list string) : list string :=
  flat_map alias_of_line lines.

(** [None] is a configuration file that cannot be read. *)
Definition parseSshConfigAliases (configContent : option string) : list string :=
  match configContent with
  | None => []
  | Some content => aliases_of_lines (split_lines content)
  end.

(** ** The [CallTool] request handler *)

(** A JSON value as the handler sees it: it only converts arguments
    with [String(...)] and tests them for truth.  [JOther] stands for
    numbers, arrays and objects, by their string form and their truth
    value. *)
Inductive JsValue : Type :=
| JUndefined
| JNull
| JBool (b : bool)
| JString (s : string)
| JOther (shown : string) (holds : bool).

Definition jsString (v : JsValue) : string :=
  match v with
  | JUndefined => "undefined"
  | JNull => "null"
  | JBool true => "true"
  | JBool false => "false"
  | JString s => s
  | JOther shown _ => shown
  end.

Definition jsTruthy (v : JsValue) : bool :=
  match v with
  | JUndefined => false
  | JNull => false
  | JBool b => b
  | JString s => negb (String.eqb s "")
  | JOther _ holds => holds
  end.

(** [request.params.arguments]; [a_env] is an object of strings, or
    absent. *)
Record Arguments := mkArguments {
  a_host : JsValue;
  a_command : JsValue;
  a_env : option Env
}.

Inductive ErrorCode : Type :=
| MethodNotFound
| InvalidParams
| InternalError.

(** An [McpError], by the code and the message given to its constructor. *)
Record McpError := mkMcpError { mcp_code : ErrorCode; mcp_message : string }.

Inductive Thrown : Type :=
| ThrownError (e : Error)
| ThrownMcp (e : McpError).

(** The [catch] around [executeCommand]. *)
Definition innerCatch (e : Error) : Thrown :=
  if includes "SSH" (message e) then
    ThrownMcp {| mcp_code := InternalError;
                 mcp_message := "SSH connection error: " +:+ message e +:+
                                ". Please ensure SSH key-based authentication is set up." |}
  else ThrownError e.

(** The [catch] around the whole handler. *)
Definition outerCatch (t : Thrown) : McpError :=
  match t with
  | ThrownMcp e => e
  | ThrownError e => {| mcp_code := InternalError; mcp_message := message e |}
  end.

Inductive HandlerOutcome : Type :=
| Replied (text : string)
| Failed (e : McpError)
| Unsettled.

Definition replyText (o : Output) : string :=
  "Command Output:" +:+ String newline "stdout: " +:+ stdout o
  +:+ String newline "stderr: " +:+ stderr o.

Definition callTool (w : World) (name : string) (arguments : option Arguments)
    (st : State) : State * HandlerOutcome :=
  if negb (String.eqb name "execute_command") then
    (st, Failed (outerCatch (ThrownMcp {| mcp_code := MethodNotFound;
                                          mcp_message := "Unknown tool" |})))
  else
    let hostValue := default JUndefined (a_host <$> arguments) in
    let host := if jsTruthy hostValue then Some (jsString hostValue) else None in
    let command := jsString (default JUndefined (a_command <$> arguments)) in
    if negb (truthy (Some command)) then
      (st, Failed (outerCatch (ThrownMcp {| mcp_code := InvalidParams;
                                            mcp_message := "Command is required" |})))
    else
      let env := default [] (arguments ≫= a_env) in
      match executeCommand w command {| opt_host := host; opt_env := Some env |} st with
      | (st, Resolved result) => (st, Replied (replyText result))
      | (st, Rejected error) => (st, Failed (outerCatch (innerCatch error)))
      | (st, Pending) => (st, Unsettled)
      end.

(** * Notions used in the statements *)

Local Open Scope list_scope.

Definition keys (o : Env) : list string := map fst o.

(** A JavaScript object has each key once. *)
Definition is_object (o : Env) : Prop := NoDup (keys o).

(** The number of connections dialled, and the retry delays slept, in a
    trace. *)
Fixpoint connectAttempts (tr : list Event) : nat :=
  match tr with
  | [] => 0
  | EvConnect _ _ :: r => S (connectAttempts r)
  | _ :: r => connectAttempts r
  end.

Fixpoint delays (tr : list Event) : list Z :=
  match tr with
  | [] => []
  | EvDelay ms :: r => ms :: delays r
  | _ :: r => delays r
  end.

Definition timer_event (e : Event) : Prop :=
  match e with
  | EvSetTimeout _ _ _ | EvClearTimeout _ => True
  | _ => False
  end.

(** A session without its timer handle: what identifies the handle. *)
Definition untimed (s : Session) : Session := set_timeout None s.

(** One iteration of the retry loop whose connection fails and which is
    followed by another: read the key, dial with a new client, sleep. *)
Definition failedAttempt (config : ConnectionConfig) (privateKeyPath : string)
    (st : State) : State :=
  {| sessions := sessions st;
     nextClient := S (nextClient st);
     nextTimer := nextTimer st;
     trace := trace st ++ [EvReadKey privateKeyPath;
                           EvConnect (nextClient st) config;
                           EvDelay retryDelayMs] |}.

Fixpoint after_failures (config : ConnectionConfig) (privateKeyPath : string)
    (n : nat) (st : State) : State :=
  match n with
  | 0 => st
  | S n' => after_failures config privateKeyPath n' (failedAttempt config privateKeyPath st)
  end.

Fixpoint failureTrace (config : ConnectionConfig) (privateKeyPath : string)
    (c n : nat) : list Event :=
  match n with
  | 0 => []
  | S n' => [EvReadKey privateKeyPath; EvConnect c config; EvDelay retryDelayMs]
            ++ failureTrace config privateKeyPath (S c) n'
  end.

(** The iterations before [i] all read the key and fail to connect. *)
Definition attempts_fail (net : Network) (i : nat) : Prop :=
  forall j, j < i -> readKey net j = KeyOk /\ exists e, dial net j = ConnError e.

(** The handle [connect] installs for the client numbered [c]. *)
Definition freshHandle (c : nat) (actualHost : string) : Session :=
  {| s_client := Some (new_client c); s_connection := Some c;
     s_timeout := None; s_host := Some actualHost; s_env := None |}.

(** The error a call ends with carries the host alias in its message. *)
Definition error_names_alias (hostAlias : string) (r : Result unit) : Prop :=
  match r with
  | Throw e => includes hostAlias (message e) = true
  | Ok _ => True
  end.

(** Timers armed for a key in a trace, and stdout chunks in a stream. *)
Fixpoint armings (key : string) (tr : list Event) : nat :=
  match tr with
  | [] => 0
  | EvSetTimeout _ k _ :: r => (if String.eqb k key then 1 else 0) + armings key r
  | _ :: r => armings key r
  end.

Fixpoint dataChunks (evs : list StreamEvent) : nat :=
  match evs with
  | [] => 0
  | SData _ :: r => S (dataChunks r)
  | _ :: r => dataChunks r
  end.

Definition remoteOptions (host : string) (env : option Env) : Options :=
  {| opt_host := Some host; opt_env := env |}.

Definition localOptions (env : Env) : Options :=
  {| opt_host := None; opt_env := Some env |}.

(** What the stream handlers collect from a run of events. *)
Fixpoint stdoutOf (evs : list StreamEvent) : string :=
  match evs with
  | [] => ""
  | SData d :: r => d +:+ stdoutOf r
  | _ :: r => stdoutOf r
  end.

Fixpoint stderrOf (evs : list StreamEvent) : string :=
  match evs with
  | [] => ""
  | SErrData d :: r => d +:+ stderrOf r
  | _ :: r => stderrOf r
  end.

(** The events that settle the promise. *)
Definition settles (ev : StreamEvent) : bool :=
  match ev with
  | SClose | SError _ => true
  | _ => false
  end.

Definition no_settle (evs : list StreamEvent) : Prop :=
  forallb (fun ev => negb (settles ev)) evs = true.

(** A sequence of local calls, each with its own world, command and
    environment. *)
Fixpoint localCalls (calls : list (World * string * Env)) (st : State) : State :=
  match calls with
  | [] => st
  | (w, command, env) :: r =>
      localCalls r (executeCommand w command (localOptions env) st).1
  end.

(** The overlay the local session holds. *)
Definition overlay (st : State) : Env :=
  default [] (sessions st !! "local" ≫= s_env).

(** The value of [k] in the last of [envs] (in call order) that has it. *)
Fixpoint latest (k : string) (envs : list Env) : option string :=
  match envs with
  | [] => None
  | e :: later =>
      match latest k later with
      | Some v => Some v
      | None => obj_get k e
      end
  end.

(** Events that start a command: a remote [exec], a local spawn. *)
Definition is_dispatch (e : Event) : bool :=
  match e with
  | EvClientExec _ _ | EvSpawn _ _ _ => true
  | _ => false
  end.

Definition is_arming (e : Event) : bool :=
  match e with
  | EvSetTimeout _ _ _ => true
  | _ => false
  end.

Fixpoint until_dispatch (rev_tr : list Event) : list Event :=
  match rev_tr with
  | [] => []
  | e :: r => if is_dispatch e then [] else e :: until_dispatch r
  end.

(** The events after the last command start of a trace. *)
Definition since_dispatch (tr : list Event) : list Event :=
  rev (until_dispatch (rev tr)).

(** A timer is armed after the last command was started. *)
Definition reset_on_completion (tr : list Event) : bool :=
  existsb is_arming (since_dispatch tr).

(** Every closing of client [c] in the trace comes after a clearing of
    timer [t]. *)
Fixpoint cleared_before_close_from (cleared : bool) (t c : nat) (tr : list Event) : bool :=
  match tr with
  | [] => true
  | EvClearTimeout t' :: r => cleared_before_close_from (cleared || (t' =? t)%nat) t c r
  | EvClientEnd c' :: r =>
      (if (c' =? c)%nat then cleared else true) && cleared_before_close_from cleared t c r
  | _ :: r => cleared_before_close_from cleared t c r
  end.

Definition cleared_before_close (t c : nat) (tr : list Event) : bool :=
  cleared_before_close_from false t c tr.

(** What teardown does to the outside world for one session. *)
Definition closing (s : Session) : list Event :=
  match s_client s with
  | Some c => [EvClientEnd (cid c)]
  | None => []
  end.

Definition clearing (s : Session) : list Event :=
  match s_timeout s with
  | Some t => [EvClearTimeout t]
  | None => []
  end.

(** How a POSIX shell reads quotes (Shell Command Language, section
    2.2).  This is the rule of the shell that receives the command
    line, not code of the repository: outside quotes a backslash
    protects the next character; single quotes run to the next single
    quote; inside double quotes a backslash protects the next character
    from ending the quotation. *)
Inductive Quoting : Type :=
| Unquoted
| UnquotedEscape
| InSingle
| InDouble
| InDoubleEscape.

Definition quote_step (s : Quoting) (c : ascii) : Quoting :=
  match s with
  | Unquoted =>
      if Ascii.eqb c backslash then UnquotedEscape
      else if Ascii.eqb c dquote then InDouble
      else if Ascii.eqb c "'"%char then InSingle
      else Unquoted
  | UnquotedEscape => Unquoted
  | InSingle => if Ascii.eqb c "'"%char then Unquoted else InSingle
  | InDouble =>
      if Ascii.eqb c backslash then InDoubleEscape
      else if Ascii.eqb c dquote then Unquoted
      else InDouble
  | InDoubleEscape => InDouble
  end.

Fixpoint quoting_from (s : Quoting) (cmd : string) : Quoting :=
  match cmd with
  | EmptyString => s
  | String c r => quoting_from (quote_step s c) r
  end.

(** The quoting state in which the shell reaches the end of the line;
    anything but [Unquoted] is a syntax error. *)
Definition quoting_at_end (cmd : string) : Quoting := quoting_from Unquoted cmd.

(** What teardown of the session under [k] emits, if there is one. *)
Definition teardownEvents (m : gmap string Session) (k : string) : list Event :=
  match m !! k with
  | Some s => closing s ++ clearing s
  | None => []
  end.

(** Key reads in a trace. *)
Fixpoint keyReads (tr : list Event) : nat :=
  match tr with
  | [] => 0
  | EvReadKey _ :: r => S (keyReads r)
  | _ :: r => keyReads r
  end.

(** Timers armed minus timers cleared. *)
Fixpoint timerBalance (tr : list Event) : Z :=
  match tr with
  | [] => 0
  | EvSetTimeout _ _ _ :: r => 1 + timerBalance r
  | EvClearTimeout _ :: r => timerBalance r - 1
  | _ :: r => timerBalance r
  end.

(** A stream without its exit status events. *)
Fixpoint strip_exit (evs : list StreamEvent) : list StreamEvent :=
  match evs with
  | [] => []
  | SExit _ :: r => strip_exit r
  | ev :: r => ev :: strip_exit r
  end.

(** The value of the last directive named [name] (in lower case). *)
Fixpoint last_value (name : string) (directives : list (string * string)) : option string :=
  match directives with
  | [] => None
  | (k, v) :: r =>
      match last_value name r with
      | Some v' => Some v'
      | None => if String.eqb (toLowerCase k) name then Some v else None
      end
  end.

(** The directives [parseSshConfig] looks at. *)
Definition known_directive (item : string * string) : bool :=
  let key := toLowerCase item.1 in
  String.eqb key "hostname" || String.eqb key "user" || String.eqb key "identityfile"
  || String.eqb key "passphrase" || String.eqb key "port".

(** The items that can matter: comment lines and the directives
    [parseSshConfig] looks at. *)
Definition known_item (item : ConfigItem) : bool :=
  match item with
  | Directive param value => known_directive (param, value)
  | Comment _ => true
  end.

Definition is_comment (item : ConfigItem) : bool :=
  match item with
  | Comment _ => true
  | Directive _ _ => false
  end.

(** Some line of the block is a comment. *)
Definition has_comment (config : list ConfigItem) : bool := existsb is_comment config.

(** The directives of a block, in order, as pairs of name and value. *)
Fixpoint directives_of (config : list ConfigItem) : list (string * string) :=
  match config with
  | [] => []
  | Directive param value :: r => (param, value) :: directives_of r
  | Comment _ :: r => directives_of r
  end.

(** The directives that take effect: those of the block found for the
    alias when no line of it is a comment, none otherwise. *)
Definition effective_directives (found : ConfigLookup) : list (string * string) :=
  match found with
  | ConfigMatch config => if has_comment config then [] else directives_of config
  | _ => []
  end.

Fixpoint all_chars (p : ascii -> bool) (s : string) : bool :=
  match s with
  | EmptyString => true
  | String c r => p c && all_chars p r
  end.

Definition no_backslash (s : string) : bool :=
  all_chars (fun c => negb (Ascii.eqb c backslash)) s.

(** The same world with another answer of the remote channel. *)
Definition with_remote (r : ExecOutcome) (w : World) : World :=
  {| net := net w; probe := probe w; remote := r;
     processEnv := processEnv w; local := local w |}.

Definition no_dquote (s : string) : bool :=
  all_chars (fun c => negb (Ascii.eqb c dquote)) s.

(** An environment entry that needs no escaping. *)
Definition plain_entry (kv : string * string) : bool :=
  no_backslash kv.1 && no_backslash kv.2 && no_dquote kv.2.

(** Text without the characters that, besides the double quote, are
    special to a shell inside double quotes: backslash, backquote and
    dollar. *)
Definition shell_plain (s : string) : bool :=
  all_chars (fun c => negb (Ascii.eqb c backslash || Ascii.eqb c "`"%char
                            || Ascii.eqb c "$"%char)) s.

Definition shell_plain_entry (kv : string * string) : bool :=
  shell_plain kv.1 && shell_plain kv.2 && no_dquote kv.2.

(** No wide white space character starts anywhere in the string. *)
Fixpoint no_wide_space (s : string) : bool :=
  match s with
  | EmptyString => true
  | String _ r => (wide_space_width s =? 0)%nat && no_wide_space r
  end.

Definition no_newline (s : string) : bool :=
  all_chars (fun c => negb (Ascii.eqb c newline)) s.

(** Lines that cannot name a host: blank lines, comments, and
    [HostName] directives. *)
Definition ignorable (line : string) : bool :=
  String.eqb (trim line) ""
  || startsWith "#" (trim line)
  || String.eqb (toLowerCase (substring 0 8 (trim line))) "hostname".

Definition commandRequired : McpError :=
  {| mcp_code := InvalidParams; mcp_message := "Command is required" |}.

Definition commandOf (arguments : option Arguments) : string :=
  jsString (default JUndefined (a_command <$> arguments)).

Definition sshWrapped (e : Error) : McpError :=
  {| mcp_code := InternalError;
     mcp_message := "SSH connection error: " +:+ message e +:+
                    ". Please ensure SSH key-based authentication is set up." |}.

(** * Concrete inputs *)

(** The connection parameters when nothing is configured for [web1]. *)
Definition web1Config : ConnectionConfig :=
  {| cc_host := "web1"; cc_port := None; cc_username := "root";
     cc_passphrase := None; cc_keepaliveInterval := 60000; cc_timeout := 10000 |}.

Definition refused : Error := mkError "connect ECONNREFUSED 10.0.0.5:22".

Definition enoent : FsError :=
  {| fs_code := Some "ENOENT";
     fs_message := "ENOENT: no such file or directory, open '/root/.ssh/id_rsa'" |}.

(** No configuration for the alias; the key is readable and the first
    connection becomes ready. *)
Definition reachableNet : Network :=
  {| lookupConfig := ConfigNoMatch; defaultKeyPath := "/root/.ssh/id_rsa";
     readKey := fun _ => KeyOk; dial := fun _ => ConnReady |}.

(** The key is readable and every connection is refused. *)
Definition refusingNet : Network :=
  {| lookupConfig := ConfigNoMatch; defaultKeyPath := "/root/.ssh/id_rsa";
     readKey := fun _ => KeyOk; dial := fun _ => ConnError refused |}.

(** What [ssh2] throws from [client.connect] for an encrypted key
    without passphrase. *)
Definition unparsable : Error :=
  mkError ("Cannot parse privateKey: Encrypted private OpenSSH key detected, "
           +:+ "but no passphrase given").

(** The key file is readable, but it is encrypted and the configuration
    gives no passphrase: every connection promise is rejected by the
    parse error. *)
Definition encryptedKeyNet : Network :=
  {| lookupConfig := ConfigNoMatch; defaultKeyPath := "/root/.ssh/id_rsa";
     readKey := fun _ => KeyOk; dial := fun _ => ConnError unparsable |}.

(** The first connection is refused; by the second iteration the key
    file is gone. *)
Definition keyVanishesNet : Network :=
  {| lookupConfig := ConfigNoMatch; defaultKeyPath := "/root/.ssh/id_rsa";
     readKey := fun i => match i with 0 => KeyOk | _ => KeyFail enoent end;
     dial := fun _ => ConnError refused |}.

(** The alias [web1] stands for another host name; two refusals, then
    the connection becomes ready. *)
Definition aliasedNet : Network :=
  {| lookupConfig := ConfigMatch [Directive "HostName" "10.0.0.5"; Directive "User" "deploy"];
     defaultKeyPath := "/root/.ssh/id_rsa";
     readKey := fun _ => KeyOk;
     dial := fun i => match i with 2 => ConnReady | _ => ConnError refused end |}.

Definition quietLocal : LocalOutcome :=
  {| l_error := None; l_stdout := ""; l_stderr := "" |}.

(** The host answers the probe and runs commands. *)
Definition liveWorld : World :=
  {| net := reachableNet;
     probe := ProbeClosed "ping";
     remote := ExecStream [SData "up 3 days"; SExit 0; SClose];
     processEnv := [("PATH", "/usr/bin")];
     local := quietLocal |}.

(** The connection no longer opens channels: the probe's [exec] calls
    back with an error, and so does any later [exec]. *)
Definition deadWorld : World :=
  {| net := reachableNet;
     probe := ProbeExecError (mkError "(SSH) Channel open failure: open failed");
     remote := ExecFail (mkError "(SSH) Channel open failure: open failed");
     processEnv := [("PATH", "/usr/bin")];
     local := quietLocal |}.

(** The alias resolves to another host name and the third connection
    attempt succeeds. *)
Definition aliasedWorld : World :=
  {| net := aliasedNet;
     probe := ProbeClosed "ping";
     remote := ExecStream [SData "up 3 days"; SExit 0; SClose];
     processEnv := [("PATH", "/usr/bin")];
     local := quietLocal |}.

(** The store after one successful command on [web1]. *)
Definition afterFirstCall : State :=
  (executeCommand liveWorld "uptime" (remoteOptions "web1" None) init).1.

Definition web1Session : Session :=
  {| s_client := Some (new_client 0); s_connection := Some 0;
     s_timeout := Some 1; s_host := Some "web1"; s_env := None |}.

(** A local command that exits with status 1 and prints nothing. *)
Definition failingLocalWorld : World :=
  {| net := reachableNet;
     probe := ProbeClosed "ping";
     remote := ExecStream [SClose];
     processEnv := [("PATH", "/usr/bin")];
     local := {| l_error := Some {| e_code := Some (CodeNum 1);
                                    e_message := "Command failed: false" |};
                 l_stdout := ""; l_stderr := "" |} |}.

(** A remote command that prints on both streams and exits with status 2. *)
Definition exitTwoWorld : World :=
  {| net := reachableNet;
     probe := ProbeClosed "ping";
     remote := ExecStream [SData "partial"; SErrData "grep: f: No such file";
                           SExit 2; SClose];
     processEnv := [("PATH", "/usr/bin")];
     local := quietLocal |}.

(** The variable [X] with a value of three characters: a, double quote, b. *)
Definition quotedEnv : Env := [("X", "a" +:+ q +:+ "b")].

(** The state in which the first command on [web1] is dispatched. *)
Definition connectedState : State :=
  (obtainSession liveWorld "web1" "web1" init).1.

(** The store after a command on [web1] and a local command. *)
Definition twoSessions : State :=
  (executeCommand liveWorld "pwd" (localOptions []) afterFirstCall).1.

Definition localSession : Session :=
  {| s_client := None; s_connection := None; s_timeout := Some 2;
     s_host := None; s_env := Some [] |}.

(** A channel that breaks after some output, and one that never closes. *)
Definition brokenStreamWorld : World :=
  with_remote (ExecStream [SData "part"; SError (mkError "read ECONNRESET"); SClose])
    liveWorld.

Definition silentStreamWorld : World :=
  with_remote (ExecStream [SData "tick"; SExit 0]) liveWorld.

Definition nl : string := String newline "".

(** The bytes of a no-break space, of a byte order mark and of the
    letter e with an acute accent. *)
Definition nbsp : string := String (ascii_of_nat 194) (String (ascii_of_nat 160) "").

Definition bom : string :=
  String (ascii_of_nat 239) (String (ascii_of_nat 187) (String (ascii_of_nat 191) "")).

Definition eacute : string := String (ascii_of_nat 195) (String (ascii_of_nat 169) "").

(** A configuration file with a comment, two host blocks and a
    wildcard block. *)
Definition sampleConfig : string :=
  "# servers" +:+ nl +:+
  "Host web1 web2" +:+ nl +:+
  "  HostName 10.0.0.5" +:+ nl +:+
  nl +:+
  "host db*" +:+ nl +:+
  "Host *" +:+ nl +:+
  "  User root".

(** The key file is missing from the first read on. *)
Definition noKeyWorld : World :=
  {| net := {| lookupConfig := ConfigNoMatch; defaultKeyPath := "/root/.ssh/id_rsa";
               readKey := fun _ => KeyFail enoent; dial := fun _ => ConnReady |};
     probe := ProbeClosed "ping";
     remote := ExecStream [SClose];
     processEnv := [("PATH", "/usr/bin")];
     local := quietLocal |}.

(** * The operations on small inputs *)

Example getSessionKey_alias : getSessionKey (Some "web1") = "web1".
Proof. reflexivity. Qed.

Example escape_dquotes_value : escape_dquotes ("a" +:+ q +:+ "b") = "a" +:+ bq +:+ "b".
Proof. reflexivity. Qed.

Example trim_ping : trim (" ping" +:+ String "010"%char "") = "ping".
Proof. reflexivity. Qed.

Example trim_wide_space :
  trim (bom +:+ " Host a " +:+ nbsp +:+ "  ") = "Host a"
  /\ trim (nbsp +:+ eacute +:+ nbsp) = eacute.
Proof. by vm_compute. Qed.

Example alias_after_wide_space :
  parseSshConfigAliases (Some (bom +:+ "Host" +:+ nbsp +:+ "web1" +:+ nbsp +:+ "web2"))
  = ["web1"].
Proof. by vm_compute. Qed.

Example includes_format :
  includes "unsupported format" "Cannot parse privateKey: unsupported format" = true.
Proof. reflexivity. Qed.

Example parseSshConfig_block :
  parseSshConfig (ConfigMatch [Directive "HostName" "10.0.0.5"; Directive "User" "deploy";
                               Directive "Port" "2222"; Directive "Compression" "yes"])
  = {| hostname := Some "10.0.0.5"; user := Some "deploy"; identityFile := None;
       passphrase := None; port := Some (parseInt10 "2222") |}.
Proof. reflexivity. Qed.

Example connectionConfig_defaults : connectionConfigOf reachableNet "web1" = web1Config.
Proof. reflexivity. Qed.

Example key_missing_message :
  message (keyReadError "/root/.ssh/id_rsa" enoent)
  = "SSH key file (/root/.ssh/id_rsa) does not exist. "
    +:+ "Please ensure SSH key-based authentication is set up.".
Proof. reflexivity. Qed.

Example probe_echo_with_newline :
  (isConnectionActive (Some (new_client 0))
     (ProbeClosed ("ping" +:+ String "010"%char "")) init).2
  = Ok true.
Proof. reflexivity. Qed.

Example spread_overrides_in_place :
  spread2 [("A", "1"); ("B", "2")] [("A", "3"); ("C", "4")]
  = [("A", "3"); ("B", "2"); ("C", "4")].
Proof. reflexivity. Qed.

Example export_two_variables :
  fullCommand [("A", "1"); ("B", "x y")] "env"
  = "export A=" +:+ q +:+ "1" +:+ q +:+ " && export B=" +:+ q +:+ "x y" +:+ q +:+ " && env".
Proof. reflexivity. Qed.

(** The first command on [web1]: read the key, dial, install, arm the
    timer, send; the stdout chunk re-arms the timer. *)
Example first_call_trace :
  trace afterFirstCall
  = [EvReadKey "/root/.ssh/id_rsa"; EvConnect 0 web1Config;
     EvSetTimeout 0 "web1" 1200000;
     EvClientExec 0 ("/bin/bash --login -c " +:+ q +:+ "uptime" +:+ q);
     EvClearTimeout 0; EvSetTimeout 1 "web1" 1200000].
Proof. vm_compute. reflexivity. Qed.

Example local_failure_message :
  localResult {| l_error := Some {| e_code := Some (CodeNum 127);
                                    e_message := "Command failed: nosuch" |};
                 l_stdout := ""; l_stderr := "" |}
  = {| stdout := ""; stderr := "Command failed: nosuch" |}.
Proof. reflexivity. Qed.

(** * Properties *)

(** ** The object model *)

Lemma obj_get_set k k' v o :
  obj_get k (obj_set k' v o) = if String.eqb k k' then Some v else obj_get k o.
Proof.
  induction o as [|[k0 v0] r IH]; simpl.
  - reflexivity.
  - destruct (String.eqb_spec k' k0) as [->|Hne]; simpl.
    + destruct (String.eqb_spec k k0); reflexivity.
    + rewrite IH. destruct (String.eqb_spec k k0) as [->|]; [|reflexivity].
      destruct (String.eqb_spec k0 k'); congruence.
Qed.

Lemma obj_get_absent k o : k ∉ keys o -> obj_get k o = None.
Proof.
  induction o as [|[k0 v0] r IH]; simpl; intros Hk; [reflexivity|].
  apply not_elem_of_cons in Hk as [Hne Hr].
  destruct (String.eqb_spec k k0); [congruence | auto].
Qed.

Lemma keys_obj_set x k v o : x ∈ keys (obj_set k v o) <-> x = k \/ x ∈ keys o.
Proof.
  induction o as [|[k0 v0] r IH]; simpl.
  - rewrite list_elem_of_singleton, elem_of_nil. tauto.
  - destruct (String.eqb_spec k k0) as [->|Hne]; simpl.
    + rewrite !elem_of_cons. tauto.
    + rewrite !elem_of_cons, IH. tauto.
Qed.

Lemma is_object_set k v o : is_object o -> is_object (obj_set k v o).
Proof.
  unfold is_object. induction o as [|[k0 v0] r IH]; simpl; intros Hnd.
  - apply NoDup_singleton.
  - apply NoDup_cons in Hnd as [Hk0 Hr].
    destruct (String.eqb_spec k k0) as [->|Hne]; simpl.
    + apply NoDup_cons; auto.
    + apply NoDup_cons. split; [|auto].
      change (k0 ∉ keys (obj_set k v r)). rewrite keys_obj_set.
      intros [?|?]; [congruence | done].
Qed.

Lemma is_object_assign t src : is_object t -> is_object (obj_assign t src).
Proof.
  unfold obj_assign. revert t.
  induction src as [|[k v] r IH]; simpl; intros t Ht; [done|].
  apply IH, is_object_set, Ht.
Qed.

(** Reading a spread: the right-hand object wins, the left-hand one
    shows through where the right-hand one has no such key. *)
Lemma obj_get_assign k t src :
  is_object src ->
  obj_get k (obj_assign t src)
  = match obj_get k src with Some v => Some v | None => obj_get k t end.
Proof.
  unfold obj_assign, is_object. revert t.
  induction src as [|[k0 v0] r IH]; simpl; intros t Hnd; [reflexivity|].
  apply NoDup_cons in Hnd as [Hk0 Hr].
  rewrite IH by done. rewrite obj_get_set.
  destruct (String.eqb_spec k k0) as [->|Hne]; [|reflexivity].
  by rewrite obj_get_absent.
Qed.

Lemma obj_get_spread2 k a b :
  is_object a -> is_object b ->
  obj_get k (spread2 a b)
  = match obj_get k b with Some v => Some v | None => obj_get k a end.
Proof.
  intros Ha Hb. unfold spread2. rewrite obj_get_assign by done.
  destruct (obj_get k b); [reflexivity|].
  rewrite obj_get_assign by done. by destruct (obj_get k a).
Qed.

Lemma is_object_spread2 a b : is_object (spread2 a b).
Proof. unfold spread2. apply is_object_assign, is_object_assign, NoDup_nil_2. Qed.

Lemma is_object_spread1 a : is_object (spread1 a).
Proof. apply is_object_assign, NoDup_nil_2. Qed.

(** ** Timers and the store *)

Lemma trace_emit e st : trace (emit e st) = trace st ++ [e].
Proof. reflexivity. Qed.

Lemma resetTimeout_absent key st :
  sessions st !! key = None -> resetTimeout key st = st.
Proof. unfold resetTimeout. by intros ->. Qed.

Lemma resetTimeout_lookup key st :
  sessions (resetTimeout key st) !! key
  = set_timeout (Some (nextTimer st)) <$> sessions st !! key.
Proof.
  unfold resetTimeout. destruct (sessions st !! key) as [s|] eqn:E; simpl.
  - rewrite lookup_insert_eq. by destruct (s_timeout s).
  - by rewrite E.
Qed.

Lemma resetTimeout_lookup_ne key k st :
  k ≠ key -> sessions (resetTimeout key st) !! k = sessions st !! k.
Proof.
  intros Hne. unfold resetTimeout. destruct (sessions st !! key) as [s|]; simpl; [|done].
  rewrite lookup_insert_ne by done. by destruct (s_timeout s).
Qed.

Lemma resetTimeout_untimed key st :
  untimed <$> sessions (resetTimeout key st) = untimed <$> sessions st.
Proof.
  apply map_eq. intros k. rewrite !lookup_fmap.
  destruct (decide (k = key)) as [->|Hne].
  - rewrite resetTimeout_lookup. by destruct (sessions st !! key).
  - by rewrite resetTimeout_lookup_ne.
Qed.

Lemma resetTimeout_nextClient key st :
  nextClient (resetTimeout key st) = nextClient st.
Proof.
  unfold resetTimeout. destruct (sessions st !! key) as [s|]; [|done].
  by destruct (s_timeout s).
Qed.

Lemma resetTimeout_trace key st :
  exists new, trace (resetTimeout key st) = trace st ++ new /\ Forall timer_event new.
Proof.
  unfold resetTimeout. destruct (sessions st !! key) as [s|].
  - destruct (s_timeout s) as [t|]; simpl.
    + exists [EvClearTimeout t; EvSetTimeout (nextTimer st) key sessionTimeout].
      split; [by rewrite <- app_assoc | repeat constructor].
    + exists [EvSetTimeout (nextTimer st) key sessionTimeout].
      split; [done | repeat constructor].
  - exists []. split; [by rewrite app_nil_r | constructor].
Qed.

(** When an entry exists the timer is armed, as the last thing done. *)
Lemma resetTimeout_arms key st s :
  sessions st !! key = Some s ->
  exists pre,
    trace (resetTimeout key st)
    = trace st ++ pre ++ [EvSetTimeout (nextTimer st) key sessionTimeout]
    /\ pre = match s_timeout s with Some t => [EvClearTimeout t] | None => [] end.
Proof.
  intros Hs. unfold resetTimeout. rewrite Hs.
  destruct (s_timeout s) as [t|]; simpl; eexists; (split; [|reflexivity]); simpl.
  - by rewrite <- app_assoc.
  - reflexivity.
Qed.

Lemma connectAttempts_app a b :
  connectAttempts (a ++ b) = connectAttempts a + connectAttempts b.
Proof.
  induction a as [|e a IH]; simpl; [done|]. destruct e; simpl; lia.
Qed.

Lemma delays_app a b : delays (a ++ b) = delays a ++ delays b.
Proof.
  induction a as [|e a IH]; simpl; [done|]. destruct e; simpl; congruence.
Qed.

Lemma keyReads_app a b : keyReads (a ++ b) = keyReads a + keyReads b.
Proof.
  induction a as [|e a IH]; simpl; [done|]. destruct e; simpl; lia.
Qed.

Lemma connectAttempts_timers tr : Forall timer_event tr -> connectAttempts tr = 0.
Proof.
  induction 1 as [|e tr He _ IH]; simpl; [done|]. by destruct e.
Qed.

(** ** The retry loop *)

Section RetryLoop.
Variable net : Network.
Variable sessionKey : string.
Variable config : ConnectionConfig.
Variable privateKeyPath : string.

Lemma after_failures_sessions n st :
  sessions (after_failures config privateKeyPath n st) = sessions st.
Proof.
  revert st. induction n as [|n IH]; simpl; intros st; [done|].
  by rewrite IH.
Qed.

Lemma after_failures_nextClient n st :
  nextClient (after_failures config privateKeyPath n st) = nextClient st + n.
Proof.
  revert st. induction n as [|n IH]; simpl; intros st; [lia|].
  rewrite IH. simpl. lia.
Qed.

Lemma after_failures_nextTimer n st :
  nextTimer (after_failures config privateKeyPath n st) = nextTimer st.
Proof.
  revert st. induction n as [|n IH]; simpl; intros st; [done|].
  by rewrite IH.
Qed.

Lemma after_failures_trace n st :
  trace (after_failures config privateKeyPath n st)
  = trace st ++ failureTrace config privateKeyPath (nextClient st) n.
Proof.
  revert st. induction n as [|n IH]; simpl; intros st.
  - by rewrite app_nil_r.
  - rewrite IH. simpl. by rewrite <- app_assoc.
Qed.

Lemma failureTrace_connects c n :
  connectAttempts (failureTrace config privateKeyPath c n) = n.
Proof. revert c. induction n as [|n IH]; simpl; intros c; [done|]. by rewrite IH. Qed.

Lemma failureTrace_keyReads c n :
  keyReads (failureTrace config privateKeyPath c n) = n.
Proof. revert c. induction n as [|n IH]; simpl; intros c; [done|]. by rewrite IH. Qed.

Lemma failureTrace_delays c n :
  delays (failureTrace config privateKeyPath c n) = replicate n retryDelayMs.
Proof. revert c. induction n as [|n IH]; simpl; intros c; [done|]. by rewrite IH. Qed.

(** [n] failing iterations, each followed by another one, are [n]
    rounds of read, dial and sleep. *)
Lemma connect_loop_skip n fuel i st :
  (forall j, i <= j < i + n ->
             readKey net j = KeyOk /\ exists e, dial net j = ConnError e) ->
  i + n <= maxRetries - 1 ->
  connect_loop net sessionKey config privateKeyPath (n + fuel) i st
  = connect_loop net sessionKey config privateKeyPath fuel (i + n)
      (after_failures config privateKeyPath n st).
Proof.
  revert i st.
  induction n as [|n IH]; intros i st Hfail Hle.
  - simpl. by rewrite Nat.add_0_r.
  - destruct (Hfail i ltac:(lia)) as [Hread [e Hdial]].
    change (S n + fuel) with (S (n + fuel)).
    cbn [connect_loop]. rewrite Hread, Hdial.
    assert ((i <? maxRetries - 1)%nat = true) as -> by (apply Nat.ltb_lt; lia).
    replace (i + S n) with (S i + n) by lia.
    cbn [after_failures].
    rewrite <- IH; [| intros j Hj; apply Hfail; lia | lia].
    f_equal. unfold failedAttempt, emit. simpl. by rewrite <- !app_assoc.
Qed.

(** An iteration whose key read fails does nothing else. *)
Lemma connect_loop_key_failure fuel i st e :
  readKey net i = KeyFail e ->
  connect_loop net sessionKey config privateKeyPath (S fuel) i st
  = (emit (EvReadKey privateKeyPath) st, Throw (keyReadError privateKeyPath e)).
Proof. intros H. simpl. by rewrite H. Qed.

(** The last iteration the loop allows rethrows the connection error. *)
Lemma connect_loop_last_failure fuel st e :
  readKey net (maxRetries - 1) = KeyOk ->
  dial net (maxRetries - 1) = ConnError e ->
  connect_loop net sessionKey config privateKeyPath (S fuel) (maxRetries - 1) st
  = ({| sessions := sessions st; nextClient := S (nextClient st);
        nextTimer := nextTimer st;
        trace := trace st ++ [EvReadKey privateKeyPath;
                              EvConnect (nextClient st) config] |},
     Throw e).
Proof.
  intros Hr Hd. cbn [connect_loop]. rewrite Hr, Hd.
  rewrite Nat.ltb_irrefl. unfold emit. simpl. by rewrite <- app_assoc.
Qed.

(** An iteration whose connection becomes ready. *)
Lemma connect_loop_ready fuel i st :
  readKey net i = KeyOk ->
  dial net i = ConnReady ->
  connect_loop net sessionKey config privateKeyPath (S fuel) i st
  = let st1 :=
      resetTimeout sessionKey
        {| sessions := sessions st; nextClient := S (nextClient st);
           nextTimer := nextTimer st;
           trace := trace st ++ [EvReadKey privateKeyPath;
                                 EvConnect (nextClient st) config] |} in
    (with_sessions
       (<[sessionKey := {| s_client := Some (new_client (nextClient st));
                           s_connection := Some (nextClient st);
                           s_timeout := None;
                           s_host := Some (cc_host config);
                           s_env := None |}]> (sessions st1)) st1,
     Ok tt).
Proof.
  intros Hr Hd. cbn [connect_loop]. rewrite Hr, Hd.
  unfold emit. simpl. by rewrite <- app_assoc.
Qed.
End RetryLoop.

(** ** [connect] *)

Lemma checkExisting_absent key st :
  sessions st !! key = None -> checkExisting key st = inr st.
Proof. unfold checkExisting. by intros ->. Qed.

(** A stored session whose client still has its ['ready'] listener is
    returned as it is: nothing is read, dialled or changed. *)
Lemma connect_reuse net hostAlias st s c p :
  sessions st !! getSessionKey (Some hostAlias) = Some s ->
  s_client s = Some c ->
  s_connection s = Some p ->
  0 < readyListeners c ->
  connect net hostAlias st = (st, Ok tt).
Proof.
  intros Hs Hc Hp Hl. unfold connect, checkExisting. rewrite Hs.
  destruct s as [cl cn t h e]. simpl in Hc, Hp. subst cl cn.
  apply Nat.ltb_lt in Hl. by rewrite Hl.
Qed.

(** With no entry for the key, a connection that becomes ready at
    iteration [i] installs the new handle, and that is all. *)
Lemma connect_fresh_success net hostAlias st i :
  sessions st !! getSessionKey (Some hostAlias) = None ->
  i < maxRetries ->
  attempts_fail net i ->
  readKey net i = KeyOk ->
  dial net i = ConnReady ->
  connect net hostAlias st
  = ({| sessions := <[getSessionKey (Some hostAlias) :=
                        freshHandle (nextClient st + i) (actualHostOf net hostAlias)]>
                      (sessions st);
        nextClient := S (nextClient st + i);
        nextTimer := nextTimer st;
        trace := trace st
                 ++ failureTrace (connectionConfigOf net hostAlias) (privateKeyPathOf net)
                      (nextClient st) i
                 ++ [EvReadKey (privateKeyPathOf net);
                     EvConnect (nextClient st + i) (connectionConfigOf net hostAlias)] |},
     Ok tt).
Proof.
  intros Hnone Hi Hfail Hr Hd. unfold connect.
  rewrite checkExisting_absent by done.
  replace maxRetries with (i + S (maxRetries - S i)) at 1 by lia.
  rewrite connect_loop_skip; [| intros j Hj; apply Hfail; lia | lia].
  rewrite connect_loop_ready by done. cbv zeta.
  rewrite resetTimeout_absent by (simpl; by rewrite after_failures_sessions).
  unfold with_sessions, freshHandle. simpl.
  rewrite after_failures_sessions, after_failures_nextClient,
    after_failures_nextTimer, after_failures_trace.
  by rewrite <- app_assoc.
Qed.

Lemma failureTrace_no_timer config privateKeyPath c n t k ms :
  EvSetTimeout t k ms ∉ failureTrace config privateKeyPath c n.
Proof.
  revert c. induction n as [|n IH]; simpl; intros c Hin.
  - by apply elem_of_nil in Hin.
  - rewrite !elem_of_cons in Hin.
    destruct Hin as [?|[?|[?|Hin]]]; try discriminate. by apply IH in Hin.
Qed.

(** X22.  A key file that cannot be read ends [connect] at once.  If
    [readFileSync] throws at iteration [i] (after [i] iterations that
    read the key and failed to connect), [connect] throws the key error
    built from that read; the only thing this iteration does is the read
    itself: no connection is dialled for it, no delay is slept after it,
    no later iteration runs, and the store is left as the initial check
    left it. *)
Theorem credential_failure_is_terminal net hostAlias st st0 i e :
  checkExisting (getSessionKey (Some hostAlias)) st = inr st0 ->
  i < maxRetries ->
  attempts_fail net i ->
  readKey net i = KeyFail e ->
  exists st',
    connect net hostAlias st = (st', Throw (keyReadError (privateKeyPathOf net) e))
    /\ trace st'
       = trace st0
         ++ failureTrace (connectionConfigOf net hostAlias) (privateKeyPathOf net)
              (nextClient st0) i
         ++ [EvReadKey (privateKeyPathOf net)]
    /\ connectAttempts (trace st') = connectAttempts (trace st0) + i
    /\ delays (trace st') = delays (trace st0) ++ replicate i retryDelayMs
    /\ sessions st' = sessions st0.
Proof.
  intros Hcheck Hi Hfail Hread.
  assert (connect net hostAlias st
          = (emit (EvReadKey (privateKeyPathOf net))
               (after_failures (connectionConfigOf net hostAlias) (privateKeyPathOf net) i st0),
             Throw (keyReadError (privateKeyPathOf net) e))) as ->.
  { unfold connect. rewrite Hcheck.
    replace maxRetries with (i + S (maxRetries - S i)) at 1 by lia.
    rewrite connect_loop_skip; [| intros j Hj; apply Hfail; lia | lia].
    by rewrite (connect_loop_key_failure _ _ _ _ _ _ _ e). }
  eexists. split; [reflexivity|].
  rewrite trace_emit, after_failures_trace.
  repeat split.
  - by rewrite <- app_assoc.
  - rewrite !connectAttempts_app, failureTrace_connects. simpl. lia.
  - rewrite !delays_app, failureTrace_delays. simpl. by rewrite app_nil_r.
  - simpl. apply after_failures_sessions.
Qed.

(** C4.  A key in an unsupported or encrypted format is not a terminal
    error.  Reading the file succeeds, since [readFileSync] only returns
    the bytes; the key is parsed by [client.connect], whose error rejects
    the connection promise, and the retry loop treats that rejection as
    any other: the file is read three times, [client.connect] is called
    three times, two delays of two seconds are slept, and the error
    thrown in the end is the parse error itself.  The branch of the read
    handler written for this error, which would have ended [connect] at
    once with the message about the key format, is never reached by
    it. *)
Theorem unparsable_key_is_retried net hostAlias st st0 e :
  checkExisting (getSessionKey (Some hostAlias)) st = inr st0 ->
  (forall j, j < maxRetries -> readKey net j = KeyOk /\ dial net j = ConnError e) ->
  includes "Cannot parse privateKey" (message e) = true ->
  exists st',
    connect net hostAlias st = (st', Throw e)
    /\ trace st'
       = trace st0
         ++ failureTrace (connectionConfigOf net hostAlias) (privateKeyPathOf net)
              (nextClient st0) 2
         ++ [EvReadKey (privateKeyPathOf net);
             EvConnect (nextClient st0 + 2) (connectionConfigOf net hostAlias)]
    /\ keyReads (trace st') = keyReads (trace st0) + 3
    /\ connectAttempts (trace st') = connectAttempts (trace st0) + 3
    /\ delays (trace st') = delays (trace st0) ++ [2000; 2000]%Z
    /\ sessions st' = sessions st0
    /\ keyReadError (privateKeyPathOf net) {| fs_code := None; fs_message := message e |}
       = mkError ("Unsupported SSH key format for key at " +:+ privateKeyPathOf net +:+ ": "
                  +:+ message e +:+ ". If your key is encrypted, ensure "
                  +:+ q +:+ "passphrase" +:+ q
                  +:+ " is provided in your SSH config or the key is not encrypted.").
Proof.
  intros Hcheck Hall Hparse.
  destruct (Hall 2 ltac:(unfold maxRetries; lia)) as [Hr Hd].
  pose (stn := after_failures (connectionConfigOf net hostAlias) (privateKeyPathOf net)
                 (maxRetries - 1) st0).
  assert (connect net hostAlias st
          = ({| sessions := sessions stn; nextClient := S (nextClient stn);
                nextTimer := nextTimer stn;
                trace := trace stn
                         ++ [EvReadKey (privateKeyPathOf net);
                             EvConnect (nextClient stn) (connectionConfigOf net hostAlias)] |},
             Throw e)) as ->.
  { unfold connect. rewrite Hcheck.
    replace maxRetries with ((maxRetries - 1) + 1) at 1 by (unfold maxRetries; lia).
    rewrite connect_loop_skip;
      [| intros j Hj; destruct (Hall j ltac:(unfold maxRetries in *; lia)) as [? ?]; eauto
       | lia].
    change (0 + (maxRetries - 1)) with (maxRetries - 1).
    by rewrite (connect_loop_last_failure _ _ _ _ _ _ e). }
  eexists. split; [reflexivity|]. cbn [trace sessions]. subst stn.
  rewrite after_failures_trace, after_failures_sessions, after_failures_nextClient.
  change (maxRetries - 1) with 2.
  repeat split.
  - by rewrite <- app_assoc.
  - rewrite !keyReads_app, failureTrace_keyReads. simpl. lia.
  - rewrite !connectAttempts_app, failureTrace_connects. simpl. lia.
  - rewrite !delays_app, failureTrace_delays. simpl. by rewrite app_nil_r.
  - unfold keyReadError. cbn [fs_code fs_message].
    rewrite bool_decide_eq_false_2 by discriminate.
    by rewrite Hparse, orb_true_r.
Qed.

Lemma unparsable_key_is_retried_witness :
  exists st',
    connect encryptedKeyNet "web1" init = (st', Throw unparsable)
    /\ trace st'
       = [EvReadKey "/root/.ssh/id_rsa"; EvConnect 0 web1Config; EvDelay 2000;
          EvReadKey "/root/.ssh/id_rsa"; EvConnect 1 web1Config; EvDelay 2000;
          EvReadKey "/root/.ssh/id_rsa"; EvConnect 2 web1Config]
    /\ keyReads (trace st') = 3
    /\ connectAttempts (trace st') = 3
    /\ delays (trace st') = [2000; 2000]%Z
    /\ sessions st' = ∅
    /\ keyReadError "/root/.ssh/id_rsa"
         {| fs_code := None; fs_message := message unparsable |}
       = mkError ("Unsupported SSH key format for key at /root/.ssh/id_rsa: "
                  +:+ message unparsable +:+ ". If your key is encrypted, ensure "
                  +:+ q +:+ "passphrase" +:+ q
                  +:+ " is provided in your SSH config or the key is not encrypted.").
Proof.
  apply (unparsable_key_is_retried encryptedKeyNet "web1" init init unparsable).
  - reflexivity.
  - intros j Hj. split; reflexivity.
  - reflexivity.
Defined.

(** C5.  When every attempt the retry budget allows fails to connect,
    [connect] throws the error of the last attempt, the very error the
    client reported; three connections were dialled and two delays of
    two seconds slept; nothing was installed in the store, so a store
    that had no entry for the key is unchanged. *)
Theorem connect_exhausted_rethrows_last net hostAlias st st0 e :
  checkExisting (getSessionKey (Some hostAlias)) st = inr st0 ->
  attempts_fail net (maxRetries - 1) ->
  readKey net (maxRetries - 1) = KeyOk ->
  dial net (maxRetries - 1) = ConnError e ->
  exists st',
    connect net hostAlias st = (st', Throw e)
    /\ connectAttempts (trace st') = connectAttempts (trace st0) + 3
    /\ delays (trace st') = delays (trace st0) ++ [2000; 2000]%Z
    /\ sessions st' = sessions st0
    /\ (sessions st !! getSessionKey (Some hostAlias) = None ->
        sessions st' = sessions st).
Proof.
  intros Hcheck Hfail Hr Hd.
  pose (stn := after_failures (connectionConfigOf net hostAlias) (privateKeyPathOf net)
                 (maxRetries - 1) st0).
  assert (connect net hostAlias st
          = ({| sessions := sessions stn; nextClient := S (nextClient stn);
                nextTimer := nextTimer stn;
                trace := trace stn
                         ++ [EvReadKey (privateKeyPathOf net);
                             EvConnect (nextClient stn) (connectionConfigOf net hostAlias)] |},
             Throw e)) as ->.
  { unfold connect. rewrite Hcheck.
    replace maxRetries with ((maxRetries - 1) + 1) at 1 by (unfold maxRetries; lia).
    rewrite connect_loop_skip; [| intros j Hj; apply Hfail; lia | lia].
    change (0 + (maxRetries - 1)) with (maxRetries - 1).
    by rewrite (connect_loop_last_failure _ _ _ _ _ _ e). }
  eexists. split; [reflexivity|]. cbn [trace sessions]. subst stn.
  rewrite after_failures_trace, after_failures_sessions.
  repeat split.
  - rewrite !connectAttempts_app, failureTrace_connects. simpl. lia.
  - rewrite !delays_app, failureTrace_delays. simpl. by rewrite app_nil_r.
  - intros Hnone. rewrite checkExisting_absent in Hcheck by done. congruence.
Qed.

(** C8.  With no entry for the key, a [connect] that succeeds at
    iteration [i] returns with the new handle installed and its timer
    field empty, and no timer was armed on the way: the ['ready']
    handler's [resetTimeout] found no entry. *)
Theorem connect_leaves_timer_unarmed net hostAlias st i :
  sessions st !! getSessionKey (Some hostAlias) = None ->
  i < maxRetries ->
  attempts_fail net i ->
  readKey net i = KeyOk ->
  dial net i = ConnReady ->
  exists st' s,
    connect net hostAlias st = (st', Ok tt)
    /\ sessions st' !! getSessionKey (Some hostAlias) = Some s
    /\ s_client s = Some (new_client (nextClient st + i))
    /\ s_timeout s = None
    /\ nextTimer st' = nextTimer st
    /\ exists new, trace st' = trace st ++ new
                   /\ forall t k ms, EvSetTimeout t k ms ∉ new.
Proof.
  intros Hnone Hi Hfail Hr Hd.
  rewrite (connect_fresh_success net hostAlias st i) by done.
  eexists _, _. split; [reflexivity|]. cbn [sessions nextTimer trace].
  rewrite lookup_insert_eq. repeat split.
  eexists. split; [reflexivity|].
  intros t k ms Hin. apply elem_of_app in Hin as [Hin|Hin].
  - by apply failureTrace_no_timer in Hin.
  - rewrite !elem_of_cons, elem_of_nil in Hin.
    destruct Hin as [?|[?|[]]]; discriminate.
Qed.

Lemma credential_failure_is_terminal_witness :
  exists st',
    connect keyVanishesNet "web1" init
    = (st', Throw (keyReadError "/root/.ssh/id_rsa" enoent))
    /\ trace st' = [EvReadKey "/root/.ssh/id_rsa"; EvConnect 0 web1Config; EvDelay 2000;
                    EvReadKey "/root/.ssh/id_rsa"]
    /\ connectAttempts (trace st') = 1
    /\ delays (trace st') = [2000%Z]
    /\ sessions st' = ∅.
Proof.
  apply (credential_failure_is_terminal keyVanishesNet "web1" init init 1 enoent).
  - reflexivity.
  - unfold maxRetries. lia.
  - intros j Hj. destruct j as [|j]; [|lia].
    split; [reflexivity | exists refused; reflexivity].
  - reflexivity.
Defined.

Lemma connect_exhausted_rethrows_last_witness :
  exists st',
    connect refusingNet "web1" init = (st', Throw refused)
    /\ connectAttempts (trace st') = 3
    /\ delays (trace st') = [2000; 2000]%Z
    /\ sessions st' = ∅
    /\ (sessions init !! "web1" = None -> sessions st' = ∅).
Proof.
  apply (connect_exhausted_rethrows_last refusingNet "web1" init init refused).
  - reflexivity.
  - intros j Hj. split; [reflexivity | exists refused; reflexivity].
  - reflexivity.
  - reflexivity.
Defined.

(** The error thrown after the last refused attempt is the client's own
    error: its message does not mention the alias. *)
Lemma connect_error_not_annotated :
  (connect refusingNet "web1" init).2 = Throw refused
  /\ ~ error_names_alias "web1" (connect refusingNet "web1" init).2.
Proof.
  split; [reflexivity|]. vm_compute. discriminate.
Qed.

Lemma connect_leaves_timer_unarmed_witness :
  exists st' s,
    connect reachableNet "web1" init = (st', Ok tt)
    /\ sessions st' !! "web1" = Some s
    /\ s_client s = Some (new_client 0)
    /\ s_timeout s = None
    /\ nextTimer st' = 0
    /\ exists new, trace st' = [] ++ new /\ forall t k ms, EvSetTimeout t k ms ∉ new.
Proof.
  apply (connect_leaves_timer_unarmed reachableNet "web1" init 0).
  - reflexivity.
  - unfold maxRetries. lia.
  - intros j Hj. lia.
  - reflexivity.
  - reflexivity.
Defined.

(** ** The remote path *)

Lemma getSessionKey_host host : host ≠ "" -> getSessionKey (Some host) = host.
Proof.
  intros Hne. unfold getSessionKey, or_else.
  destruct (String.eqb_spec host ""); congruence.
Qed.

Lemma truthy_host host : host ≠ "" -> truthy (Some host) = true.
Proof.
  intros Hne. unfold truthy. by destruct (String.eqb_spec host "").
Qed.

Lemma armings_app key a b : armings key (a ++ b) = armings key a + armings key b.
Proof.
  induction a as [|e a IH]; simpl; [done|]. destruct e; simpl; lia.
Qed.

Lemma untimed_lookup (m m' : gmap string Session) key s :
  untimed <$> m' = untimed <$> m ->
  m !! key = Some s ->
  exists s', m' !! key = Some s' /\ untimed s' = untimed s.
Proof.
  intros Heq Hs.
  assert ((untimed <$> m') !! key = Some (untimed s)) as H
    by (by rewrite Heq, lookup_fmap, Hs).
  rewrite lookup_fmap in H. apply fmap_Some in H as (s' & Hs' & Hu). eauto.
Qed.

Lemma timers_no_exec tr c cmd :
  Forall timer_event tr -> EvClientExec c cmd ∈ tr -> False.
Proof. rewrite Forall_forall. intros H Hin. by apply H in Hin. Qed.

(** The stream handlers only touch the timer of the session's entry. *)
Lemma run_stream_effects key evs out err settled st :
  exists new,
    trace (run_stream key evs out err settled st).1 = trace st ++ new
    /\ Forall timer_event new
    /\ untimed <$> sessions (run_stream key evs out err settled st).1
       = untimed <$> sessions st
    /\ (is_Some (sessions st !! key) -> armings key new = dataChunks evs).
Proof.
  revert out err settled st.
  induction evs as [|ev evs IH]; intros out err settled st.
  - exists []. simpl. rewrite app_nil_r. by repeat split.
  - destruct ev; simpl; try apply IH.
    destruct (IH (out +:+ d) err settled (resetTimeout key st))
      as (new & Htr & Hnew & Hst & Harm).
    destruct (resetTimeout_trace key st) as (new0 & Htr0 & Hnew0).
    exists (new0 ++ new). repeat split.
    + by rewrite Htr, Htr0, app_assoc.
    + by apply Forall_app.
    + by rewrite Hst, resetTimeout_untimed.
    + intros [s Hs]. rewrite armings_app, Harm.
      * destruct (resetTimeout_arms key st s Hs) as (pre & Htr1 & Hpre).
        rewrite Htr1 in Htr0. apply app_inv_head in Htr0. subst new0.
        rewrite armings_app. simpl. rewrite String.eqb_refl.
        destruct (s_timeout s); subst pre; simpl; lia.
      * rewrite resetTimeout_lookup, Hs. by eexists.
Qed.

(** Dispatching a remote command: the timer is armed, then the command
    is sent to the client; afterwards only timers move. *)
Lemma runRemote_effects w key command env c st s :
  sessions st !! key = Some s ->
  exists pre post,
    trace (runRemote w key command env c st).1
    = trace st ++ pre
      ++ [EvSetTimeout (nextTimer st) key sessionTimeout;
          EvClientExec (cid c) (remoteCommandLine env command)]
      ++ post
    /\ pre = match s_timeout s with Some t => [EvClearTimeout t] | None => [] end
    /\ Forall timer_event post
    /\ armings key post
       = match remote w with ExecFail _ => 0 | ExecStream evs => dataChunks evs end
    /\ untimed <$> sessions (runRemote w key command env c st).1
       = untimed <$> sessions st.
Proof.
  intros Hs. unfold runRemote.
  destruct (resetTimeout_arms key st s Hs) as (pre & Htr & Hpre).
  remember (emit (EvClientExec (cid c) (remoteCommandLine env command))
              (resetTimeout key st)) as st1 eqn:Hst1def.
  assert (trace st1 = trace st ++ pre
            ++ [EvSetTimeout (nextTimer st) key sessionTimeout;
                EvClientExec (cid c) (remoteCommandLine env command)]) as Htr1.
  { subst st1. rewrite trace_emit, Htr. by rewrite <- !app_assoc. }
  assert (untimed <$> sessions st1 = untimed <$> sessions st) as Hst1
    by (subst st1; apply resetTimeout_untimed).
  exists pre. destruct (remote w) as [e|evs].
  - exists []. cbn [fst]. rewrite Htr1. by repeat split.
  - destruct (run_stream_effects key evs "" "" None st1)
      as (post & Htr2 & Hpost & Hst2 & Harm).
    exists post. repeat split; try done.
    + rewrite Htr2, Htr1. by rewrite <- !app_assoc.
    + apply Harm. subst st1. cbn [emit sessions].
      rewrite resetTimeout_lookup, Hs. by eexists.
    + by rewrite Hst2.
Qed.

(** Whenever [obtainSession] ends with a client, that client is the one
    of the entry stored under the key. *)
Lemma obtainSession_ok w key host st st1 c :
  obtainSession w key host st = (st1, Ok c) ->
  exists s, sessions st1 !! key = Some s /\ s_client s = Some c.
Proof.
  unfold obtainSession. intros H.
  destruct (sessions st !! key) as [s|] eqn:Hs.
  - destruct (negb (bool_decide (s_host s = Some host))).
    + destruct (connect (net w) host st) as [st2 [[]|e]]; [|discriminate].
      destruct (sessions st2 !! key) as [s2|] eqn:Hs2; [|discriminate].
      simpl in H. destruct (s_client s2) eqn:Hc2; [|discriminate].
      injection H as <- <-. eauto.
    + destruct (s_client s) as [c0|] eqn:Hc0.
      * unfold isConnectionActive in H.
        destruct (probe w) as [e|e|out|e]; try discriminate;
          cbn [negb] in H;
          try (destruct (String.eqb (trim out) "ping"); cbn [negb] in H).
        all: try (simpl in H; rewrite Hc0 in H; injection H as <- <-;
                  simpl; eauto; fail).
        all: destruct (connect (net w) host _) as [st2 [[]|e']]; [|discriminate];
          destruct (sessions st2 !! key) as [s2|] eqn:Hs2; [|discriminate];
          simpl in H; destruct (s_client s2) eqn:Hc2; [|discriminate];
          injection H as <- <-; eauto.
      * destruct (connect (net w) host st) as [st2 [[]|e]]; [|discriminate].
        destruct (sessions st2 !! key) as [s2|] eqn:Hs2; [|discriminate].
        simpl in H. destruct (s_client s2) eqn:Hc2; [|discriminate].
        injection H as <- <-. eauto.
  - destruct (connect (net w) host st) as [st2 [[]|e]]; [|discriminate].
    destruct (sessions st2 !! key) as [s2|] eqn:Hs2; [|discriminate].
    simpl in H. destruct (s_client s2) eqn:Hc2; [|discriminate].
    injection H as <- <-. eauto.
Qed.

(** A stored session whose client has a ['ready'] listener is what
    [obtainSession] ends with, whatever the probe says and whatever host
    name is stored: [connect], when called, returns the stored session. *)
Lemma obtainSession_stored w host st s c p :
  sessions st !! getSessionKey (Some host) = Some s ->
  s_client s = Some c ->
  s_connection s = Some p ->
  0 < readyListeners c ->
  let res := obtainSession w (getSessionKey (Some host)) host st in
  (res.1 = st \/ res.1 = emit (EvClientExec (cid c) pingCommand) st)
  /\ (res.2 = Ok c \/ exists e, res.2 = Throw e /\ probe w = ProbeThrows e).
Proof.
  intros Hs Hc Hp Hl.
  assert (forall st0, sessions st0 = sessions st ->
            connect (net w) host st0 = (st0, Ok tt)) as Hre.
  { intros st0 Hst0. apply (connect_reuse _ _ _ s c p); try done.
    by rewrite Hst0. }
  remember (getSessionKey (Some host)) as key eqn:Hkey.
  unfold obtainSession. rewrite Hs.
  destruct (negb (bool_decide (s_host s = Some host))).
  - rewrite Hre by done. rewrite Hs. simpl. rewrite Hc. auto.
  - rewrite Hc. unfold isConnectionActive.
    destruct (probe w) as [e|e|out|e] eqn:Hprobe; cbn [negb].
    + simpl. split; [auto | right; eauto].
    + rewrite Hre by done. simpl. rewrite Hs. simpl. rewrite Hc. auto.
    + destruct (String.eqb (trim out) "ping"); cbn [negb].
      * simpl. rewrite Hc. auto.
      * rewrite Hre by done. simpl. rewrite Hs. simpl. rewrite Hc. auto.
    + rewrite Hre by done. simpl. rewrite Hs. simpl. rewrite Hc. auto.
Qed.

(** The same, when the stored host is the requested one and the probe
    answers: the probe is sent and the stored client is kept, dead or
    alive. *)
Lemma obtainSession_probed w host st s c p alive :
  sessions st !! getSessionKey (Some host) = Some s ->
  s_host s = Some host ->
  s_client s = Some c ->
  s_connection s = Some p ->
  0 < readyListeners c ->
  (isConnectionActive (Some c) (probe w) st).2 = Ok alive ->
  obtainSession w (getSessionKey (Some host)) host st
  = (emit (EvClientExec (cid c) pingCommand) st, Ok c).
Proof.
  intros Hs Hh Hc Hp Hl Hprobe.
  assert (connect (net w) host (emit (EvClientExec (cid c) pingCommand) st)
          = (emit (EvClientExec (cid c) pingCommand) st, Ok tt)) as Hre
    by (by apply (connect_reuse _ _ _ s c p)).
  remember (getSessionKey (Some host)) as key eqn:Hkey.
  unfold obtainSession. rewrite Hs, Hh.
  rewrite bool_decide_eq_true_2 by done. cbn [negb]. rewrite Hc.
  assert (isConnectionActive (Some c) (probe w) st
          = (emit (EvClientExec (cid c) pingCommand) st, Ok alive)) as ->.
  { revert Hprobe. unfold isConnectionActive.
    destruct (probe w); simpl; congruence. }
  destruct alive; cbn [negb].
  - simpl. by rewrite Hc.
  - rewrite Hre. cbn [emit sessions]. rewrite Hs. simpl. by rewrite Hc.
Qed.

Lemma executeCommand_remote w command host env st :
  host ≠ "" ->
  executeCommand w command (remoteOptions host env) st
  = executeRemote w (getSessionKey (Some host)) command host (default [] env) st.
Proof.
  intros Hne. unfold executeCommand, remoteOptions. cbn [opt_host opt_env].
  by rewrite truthy_host.
Qed.

(** C1.  A stored session whose probe answers false is not replaced.
    For a session as [connect] installs them (a connection promise and a
    client that has its ['ready'] listener), stored under the requested
    host, a false probe is followed by no connection attempt, and the
    command is sent on the client that was just probed dead; the entry
    keeps that client. *)
Theorem dead_session_is_reused w host command env st s c p :
  host ≠ "" ->
  sessions st !! getSessionKey (Some host) = Some s ->
  s_host s = Some host ->
  s_client s = Some c ->
  s_connection s = Some p ->
  0 < readyListeners c ->
  (isConnectionActive (Some c) (probe w) st).2 = Ok false ->
  let st' := (executeCommand w command (remoteOptions host env) st).1 in
  connectAttempts (trace st') = connectAttempts (trace st)
  /\ (exists pre post,
        trace st'
        = trace st ++ [EvClientExec (cid c) pingCommand] ++ pre
          ++ [EvClientExec (cid c) (remoteCommandLine (default [] env) command)] ++ post
        /\ Forall timer_event pre /\ Forall timer_event post)
  /\ exists s', sessions st' !! getSessionKey (Some host) = Some s'
                /\ s_client s' = Some c.
Proof.
  intros Hne Hs Hh Hc Hp Hl Hprobe st'. subst st'.
  rewrite executeCommand_remote by done. unfold executeRemote.
  rewrite (obtainSession_probed w host st s c p false) by done.
  set (st1 := emit (EvClientExec (cid c) pingCommand) st).
  destruct (runRemote_effects w (getSessionKey (Some host)) command (default [] env) c st1 s Hs)
    as (pre & post & Htr & Hpre & Hpost & _ & Hst).
  assert (trace (runRemote w (getSessionKey (Some host)) command (default [] env) c st1).1
          = trace st ++ [EvClientExec (cid c) pingCommand]
            ++ (pre ++ [EvSetTimeout (nextTimer st1) (getSessionKey (Some host))
                          sessionTimeout])
            ++ [EvClientExec (cid c) (remoteCommandLine (default [] env) command)] ++ post)
    as Htr'.
  { rewrite Htr. subst st1. rewrite trace_emit. by rewrite <- !app_assoc. }
  assert (Forall timer_event
            (pre ++ [EvSetTimeout (nextTimer st1) (getSessionKey (Some host)) sessionTimeout]))
    as Hpre'.
  { apply Forall_app. split; [|by repeat constructor].
    subst pre. destruct (s_timeout s); by repeat constructor. }
  split; [|split].
  - rewrite Htr'. rewrite connectAttempts_app.
    rewrite (connectAttempts_app [_]), (connectAttempts_app (pre ++ _)),
      (connectAttempts_app [_]).
    rewrite (connectAttempts_timers _ Hpre'), (connectAttempts_timers _ Hpost).
    cbn [connectAttempts]. lia.
  - eauto.
  - destruct (untimed_lookup _ _ _ s Hst Hs) as (s' & Hs' & Hu).
    exists s'. split; [done|].
    change (s_client (untimed s') = Some c). by rewrite Hu.
Qed.

Lemma dead_session_is_reused_witness :
  let st' := (executeCommand deadWorld "ls" (remoteOptions "web1" None) afterFirstCall).1 in
  connectAttempts (trace st') = connectAttempts (trace afterFirstCall)
  /\ (exists pre post,
        trace st'
        = trace afterFirstCall ++ [EvClientExec 0 pingCommand] ++ pre
          ++ [EvClientExec 0 (remoteCommandLine [] "ls")] ++ post
        /\ Forall timer_event pre /\ Forall timer_event post)
  /\ exists s', sessions st' !! "web1" = Some s'
                /\ s_client s' = Some (new_client 0).
Proof.
  apply (dead_session_is_reused deadWorld "web1" "ls" None afterFirstCall
           web1Session (new_client 0) 0).
  - discriminate.
  - vm_compute. reflexivity.
  - reflexivity.
  - reflexivity.
  - reflexivity.
  - simpl. lia.
  - reflexivity.
Defined.

(** With no entry for the key, [obtainSession] is [connect] followed by
    a look at the store. *)
Lemma obtainSession_fresh w key host st stc s c :
  sessions st !! key = None ->
  connect (net w) host st = (stc, Ok tt) ->
  sessions stc !! key = Some s ->
  s_client s = Some c ->
  obtainSession w key host st = (stc, Ok c).
Proof.
  intros Hnone Hconn Hs Hc. unfold obtainSession.
  rewrite Hnone, Hconn, Hs. simpl. by rewrite Hc.
Qed.

(** C3.  With no session for the host, a first call whose connection
    succeeds (at iteration [i] of the retry loop) adds one handle to the
    store, under the host's key, and changes no other entry.  A second
    call for the same host then dials no connection, leaves the same
    handles in the store, and sends commands on that handle's client
    only; this is so whatever the probe answers and whatever host name
    the configuration gave the alias. *)
Theorem session_created_once_then_reused w1 w2 host cmd1 cmd2 env1 env2 st i :
  host ≠ "" ->
  sessions st !! getSessionKey (Some host) = None ->
  i < maxRetries ->
  attempts_fail (net w1) i ->
  readKey (net w1) i = KeyOk ->
  dial (net w1) i = ConnReady ->
  let key := getSessionKey (Some host) in
  let c := nextClient st + i in
  let st1 := (executeCommand w1 cmd1 (remoteOptions host env1) st).1 in
  let st2 := (executeCommand w2 cmd2 (remoteOptions host env2) st1).1 in
  untimed <$> sessions st1
  = <[key := freshHandle c (actualHostOf (net w1) host)]> (untimed <$> sessions st)
  /\ connectAttempts (trace st1) = connectAttempts (trace st) + S i
  /\ untimed <$> sessions st2 = untimed <$> sessions st1
  /\ connectAttempts (trace st2) = connectAttempts (trace st1)
  /\ exists new,
       trace st2 = trace st1 ++ new
       /\ (forall c' cmd, EvClientExec c' cmd ∈ new -> c' = c)
       /\ ((forall e, probe w2 ≠ ProbeThrows e) ->
           EvClientExec c (remoteCommandLine (default [] env2) cmd2) ∈ new).
Proof.
  intros Hne Hnone Hi Hfail Hr Hd key c st1 st2.
  pose proof (connect_fresh_success (net w1) host st i Hnone Hi Hfail Hr Hd) as Hconn.
  set (stc := {| sessions := <[key := freshHandle c (actualHostOf (net w1) host)]>
                               (sessions st);
                 nextClient := S c; nextTimer := nextTimer st;
                 trace := trace st
                          ++ failureTrace (connectionConfigOf (net w1) host)
                               (privateKeyPathOf (net w1))
                               (nextClient st) i
                          ++ [EvReadKey (privateKeyPathOf (net w1));
                              EvConnect c (connectionConfigOf (net w1) host)] |}) in *.
  assert (sessions stc !! key = Some (freshHandle c (actualHostOf (net w1) host))) as Hstc
    by apply lookup_insert_eq.
  (* the first call *)
  assert (st1 = (runRemote w1 key cmd1 (default [] env1) (new_client c) stc).1) as Hst1.
  { subst st1. rewrite executeCommand_remote by done. unfold executeRemote. fold key.
    by rewrite (obtainSession_fresh w1 key host st stc _ (new_client c) Hnone Hconn Hstc). }
  destruct (runRemote_effects w1 key cmd1 (default [] env1) (new_client c) stc _ Hstc)
    as (pre1 & post1 & Htr1 & Hpre1 & Hpost1 & _ & Hu1).
  rewrite <- Hst1 in Htr1, Hu1. simpl in Hpre1. subst pre1.
  assert (untimed <$> sessions st1
          = <[key := freshHandle c (actualHostOf (net w1) host)]> (untimed <$> sessions st))
    as Hstore1 by (rewrite Hu1; subst stc; cbn [sessions]; by rewrite fmap_insert).
  assert (connectAttempts (trace st1) = connectAttempts (trace st) + S i) as Hcount1.
  { rewrite Htr1. subst stc. cbn [trace app].
    rewrite !connectAttempts_app, failureTrace_connects.
    cbn [connectAttempts]. rewrite (connectAttempts_timers _ Hpost1). lia. }
  (* the entry the second call finds *)
  destruct (untimed_lookup _ _ key _ Hu1 Hstc) as (s1 & Hs1 & Hus1).
  assert (s_client s1 = Some (new_client c)) as Hc1
    by (change (s_client (untimed s1) = Some (new_client c)); by rewrite Hus1).
  assert (s_connection s1 = Some c) as Hp1
    by (change (s_connection (untimed s1) = Some c); by rewrite Hus1).
  (* the second call *)
  assert (untimed <$> sessions st2 = untimed <$> sessions st1
          /\ exists new,
               trace st2 = trace st1 ++ new
               /\ connectAttempts new = 0
               /\ (forall c' cmd, EvClientExec c' cmd ∈ new -> c' = c)
               /\ ((forall e, probe w2 ≠ ProbeThrows e) ->
                   EvClientExec c (remoteCommandLine (default [] env2) cmd2) ∈ new))
    as (Hstore2 & new & Htr2 & Hcount2 & Hon & Hsent).
  { subst st2. rewrite executeCommand_remote by done. unfold executeRemote. fold key.
    destruct (obtainSession_stored w2 host st1 s1 (new_client c) c Hs1 Hc1 Hp1)
      as [Hstate Hres]; [simpl; lia|].
    fold key in Hstate, Hres.
    destruct (obtainSession w2 key host st1) as [sto r]. simpl in Hstate, Hres.
    assert (exists probed, trace sto = trace st1 ++ probed
              /\ sessions sto = sessions st1
              /\ connectAttempts probed = 0
              /\ forall c' cmd, EvClientExec c' cmd ∈ probed -> c' = c)
      as (probed & Htro & Hso & Hcp & Hpon).
    { destruct Hstate as [->| ->].
      - exists []. rewrite app_nil_r. repeat split; try done.
        intros c' cmd Hin. by apply elem_of_nil in Hin.
      - exists [EvClientExec c pingCommand]. repeat split; try done.
        intros c' cmd Hin. apply list_elem_of_singleton in Hin. congruence. }
    destruct Hres as [->|(e & -> & Hthrows)].
    - assert (sessions sto !! key = Some s1) as Hs1o by (by rewrite Hso).
      destruct (runRemote_effects w2 key cmd2 (default [] env2) (new_client c) sto s1 Hs1o)
        as (pre2 & post2 & Htr2 & Hpre2 & Hpost2 & _ & Hu2).
      split; [by rewrite Hu2, Hso|].
      eexists. split; [rewrite Htr2, Htro, <- app_assoc; reflexivity|].
      assert (Forall timer_event pre2) as Hpre2'
        by (subst pre2; destruct (s_timeout s1); by repeat constructor).
      split; [|split].
      + rewrite !connectAttempts_app, Hcp.
        rewrite (connectAttempts_timers _ Hpre2'), (connectAttempts_timers _ Hpost2).
        reflexivity.
      + intros c' cmd Hin.
        repeat match goal with
               | H : _ \/ _ |- _ => destruct H
               | H : _ ∈ _ ++ _ |- _ => apply elem_of_app in H
               | H : _ ∈ _ :: _ |- _ => apply elem_of_cons in H
               | H : _ ∈ [] |- _ => by apply elem_of_nil in H
               end;
          first [ by eauto
                | by simplify_eq
                | by exfalso; eapply timers_no_exec; [|eassumption] ].
      + intros _. change (cid (new_client c)) with c.
        rewrite !elem_of_app, !elem_of_cons. intuition.
    - simpl. split; [by rewrite Hso|].
      exists probed. repeat split; try done.
      intros Hno. by destruct (Hno e). }
  repeat split; try done.
  - rewrite Htr2, connectAttempts_app. lia.
  - exists new. auto.
Qed.

Lemma session_created_once_then_reused_witness :
  let st1 := (executeCommand aliasedWorld "uptime" (remoteOptions "web1" None) init).1 in
  let st2 := (executeCommand deadWorld "df" (remoteOptions "web1" None) st1).1 in
  untimed <$> sessions st1 = <["web1" := freshHandle 2 "10.0.0.5"]> (untimed <$> sessions init)
  /\ connectAttempts (trace st1) = connectAttempts (trace init) + 3
  /\ untimed <$> sessions st2 = untimed <$> sessions st1
  /\ connectAttempts (trace st2) = connectAttempts (trace st1)
  /\ exists new,
       trace st2 = trace st1 ++ new
       /\ (forall c' cmd, EvClientExec c' cmd ∈ new -> c' = 2)
       /\ ((forall e, probe deadWorld ≠ ProbeThrows e) ->
           EvClientExec 2 (remoteCommandLine [] "df") ∈ new).
Proof.
  apply (session_created_once_then_reused aliasedWorld deadWorld "web1" "uptime" "df"
           None None init 2).
  - discriminate.
  - reflexivity.
  - unfold maxRetries. lia.
  - intros j Hj. destruct j as [|[|j]]; [| |lia];
      (split; [reflexivity | exists refused; reflexivity]).
  - reflexivity.
  - reflexivity.
Defined.

(** ** Exit status *)

Lemma str_app_assoc (a b c : string) : (a +:+ b) +:+ c = a +:+ (b +:+ c).
Proof.
  induction a as [|x a IH]; [reflexivity|].
  change (String x ((a +:+ b) +:+ c) = String x (a +:+ (b +:+ c))).
  by rewrite IH.
Qed.

Lemma str_app_nil_r (a : string) : a +:+ "" = a.
Proof.
  induction a as [|x a IH]; [reflexivity|].
  change (String x (a +:+ "") = String x a). by rewrite IH.
Qed.

(** Once settled, a promise keeps its outcome. *)
Lemma run_stream_settled key evs out err o st :
  (run_stream key evs out err (Some o) st).2 = o.
Proof.
  revert out err st. induction evs as [|ev evs IH]; intros out err st; [done|].
  destruct ev; simpl; apply IH.
Qed.

(** A stream that reaches ['close'] resolves with everything collected
    before it; exit status events pass unnoticed. *)
Lemma run_stream_collect key evs rest out err st :
  no_settle evs ->
  (run_stream key (evs ++ SClose :: rest) out err None st).2
  = Resolved {| stdout := out +:+ stdoutOf evs; stderr := err +:+ stderrOf evs |}.
Proof.
  unfold no_settle. revert out err st.
  induction evs as [|ev evs IH]; intros out err st Hns.
  - simpl. rewrite run_stream_settled. simpl. by rewrite !str_app_nil_r.
  - simpl in Hns. apply andb_prop in Hns as [Hev Hns].
    destruct ev; try discriminate; simpl; rewrite IH by done;
      by rewrite ?str_app_assoc.
Qed.

Lemma executeCommand_local w command options st :
  truthy (opt_host options) = false ->
  executeCommand w command options st
  = executeLocal w "local" command (default [] (opt_env options)) st.
Proof.
  intros Hf. unfold executeCommand. rewrite Hf.
  destruct (opt_host options) as [h|]; [|done].
  simpl in Hf. apply negb_false_iff, String.eqb_eq in Hf. by subst h.
Qed.

(** C6.  A command that exits with a non-zero status is not an error.
    Locally the call always resolves, with the child's stdout, and with
    its stderr, or, when that is empty and the child failed, with the
    failure's message.  Remotely, once a session is obtained, a stream
    that reaches ['close'] resolves with the stdout and stderr data
    received, whatever exit status was reported on the way; a rejection
    can only be the one [obtainSession] ended with. *)
Theorem nonzero_exit_is_not_an_error w command :
  (forall options st,
      truthy (opt_host options) = false ->
      exists o,
        (executeCommand w command options st).2 = Resolved o
        /\ stdout o = l_stdout (local w)
        /\ (l_stderr (local w) ≠ "" -> stderr o = l_stderr (local w))
        /\ (forall error,
               l_error (local w) = Some error ->
               code_is_zero (e_code error) = false ->
               l_stderr (local w) = "" ->
               stderr o = e_message error))
  /\ (forall host env st evs rest,
         host ≠ "" ->
         remote w = ExecStream (evs ++ SClose :: rest) ->
         no_settle evs ->
         match obtainSession w (getSessionKey (Some host)) host st with
         | (_, Throw e) =>
             (executeCommand w command (remoteOptions host env) st).2 = Rejected e
         | (_, Ok _) =>
             (executeCommand w command (remoteOptions host env) st).2
             = Resolved {| stdout := stdoutOf evs; stderr := stderrOf evs |}
         end).
Proof.
  split.
  - intros options st Hlocal. rewrite executeCommand_local by done.
    unfold executeLocal.
    destruct (sessions st !! "local") as [s|]; cbn [snd];
      (eexists; split; [reflexivity|]);
      unfold localResult;
      (destruct (l_error (local w)) as [error|] eqn:Herr;
       [destruct (code_is_zero (e_code error)) eqn:Hcode|]); cbn [negb stdout stderr];
      (split; [reflexivity|]); (split; [try done|]).
    all: try (intros Hne; unfold or_else;
              by destruct (String.eqb_spec (l_stderr (local w)) "")).
    all: intros error' Herr' Hcode' Hempty; simplify_eq; try congruence.
    all: by rewrite Hempty.
  - intros host env st evs rest Hne Hremote Hns.
    rewrite executeCommand_remote by done. unfold executeRemote.
    destruct (obtainSession w (getSessionKey (Some host)) host st) as [st1 [c|e]];
      [|reflexivity].
    unfold runRemote. rewrite Hremote. by rewrite run_stream_collect.
Qed.

Lemma nonzero_exit_is_not_an_error_witness :
  (exists o,
      (executeCommand failingLocalWorld "false" (localOptions []) init).2 = Resolved o
      /\ stdout o = ""
      /\ ("" ≠ "" -> stderr o = "")
      /\ (forall error,
             Some {| e_code := Some (CodeNum 1); e_message := "Command failed: false" |}
             = Some error ->
             code_is_zero (e_code error) = false ->
             "" = "" ->
             stderr o = e_message error))
  /\ (executeCommand exitTwoWorld "grep x f" (remoteOptions "web1" None) init).2
     = Resolved {| stdout := "partial"; stderr := "grep: f: No such file" |}.
Proof.
  split.
  - apply (proj1 (nonzero_exit_is_not_an_error failingLocalWorld "false")
             (localOptions []) init).
    reflexivity.
  - apply (proj2 (nonzero_exit_is_not_an_error exitTwoWorld "grep x f")
             "web1" None init
             [SData "partial"; SErrData "grep: f: No such file"; SExit 2] []).
    + discriminate.
    + reflexivity.
    + reflexivity.
Defined.

(** ** The local path *)

Lemma latest_snoc k envs env :
  latest k (envs ++ [env])
  = match obj_get k env with Some v => Some v | None => latest k envs end.
Proof.
  induction envs as [|e envs IH]; simpl.
  - by destruct (obj_get k env).
  - rewrite IH. by destruct (obj_get k env).
Qed.

(** One local call: what the session keeps. *)
Lemma executeLocal_overlay w command env st :
  is_object env ->
  is_object (overlay st) ->
  let st' := (executeCommand w command (localOptions env) st).1 in
  is_object (overlay st')
  /\ forall k, obj_get k (overlay st')
               = match obj_get k env with
                 | Some v => Some v
                 | None => obj_get k (overlay st)
                 end.
Proof.
  intros Henv Hov st'. subst st'.
  rewrite executeCommand_local by done. cbn [localOptions opt_env default].
  unfold executeLocal, overlay in *.
  destruct (sessions st !! "local") as [s|] eqn:Hs; cbn [fst emit sessions];
    rewrite resetTimeout_lookup; cbn [with_sessions sessions];
    rewrite lookup_insert_eq; simpl.
  - simpl in Hov. split; [apply is_object_spread2|].
    intros k. by apply obj_get_spread2.
  - split; [apply is_object_spread1|].
    intros k. unfold spread1. rewrite obj_get_assign by done.
    by destruct (obj_get k env).
Qed.

(** One local call: what the child receives. *)
Lemma executeLocal_spawn w command env st :
  is_object env ->
  is_object (overlay st) ->
  is_object (processEnv w) ->
  exists envVars,
    last (trace (executeCommand w command (localOptions env) st).1)
    = Some (EvSpawn command envVars (obj_get "DEFAULT_DIR" (processEnv w)))
    /\ forall k, obj_get k envVars
                 = match obj_get k env with
                   | Some v => Some v
                   | None => match obj_get k (overlay st) with
                             | Some v => Some v
                             | None => obj_get k (processEnv w)
                             end
                   end.
Proof.
  intros Henv Hov Hpe.
  rewrite executeCommand_local by done. cbn [localOptions opt_env default].
  unfold executeLocal, overlay in *.
  destruct (sessions st !! "local") as [s|] eqn:Hs; cbn [fst];
    rewrite trace_emit, last_snoc; (eexists; split; [reflexivity|]); intros k.
  - simpl in Hov.
    rewrite obj_get_spread2 by (done || apply is_object_spread2).
    rewrite obj_get_spread2 by done. simpl. by destruct (obj_get k env).
  - rewrite obj_get_spread2 by done. simpl. by destruct (obj_get k env).
Qed.

Lemma localCalls_overlay calls st :
  Forall is_object (map snd calls) ->
  is_object (overlay st) ->
  is_object (overlay (localCalls calls st))
  /\ forall k, obj_get k (overlay (localCalls calls st))
               = match latest k (map snd calls) with
                 | Some v => Some v
                 | None => obj_get k (overlay st)
                 end.
Proof.
  revert st. induction calls as [|[[w command] env] calls IH]; intros st Hcalls Hov.
  - by split.
  - simpl in Hcalls. apply Forall_cons in Hcalls as [Henv Hcalls].
    destruct (executeLocal_overlay w command env st Henv Hov) as (Hov' & Hget).
    destruct (IH _ Hcalls Hov') as [Hobj Hlatest].
    split; [exact Hobj|]. intros k. simpl.
    rewrite Hlatest, Hget. by destruct (latest k (map snd calls)).
Qed.

(** C7.  Local calls accumulate their environments.  Starting without a
    local session, after any sequence of local calls the child of the
    next call is spawned with an environment in which every variable has
    the value given by the latest call that named it, this call
    included, and otherwise the value it has in the server's own
    environment; the session keeps the same overlay for later calls.
    (Each environment is an object: its keys are distinct.) *)
Theorem local_env_accumulates calls w command env st :
  sessions st !! "local" = None ->
  Forall is_object (map snd calls) ->
  is_object env ->
  is_object (processEnv w) ->
  let st1 := localCalls calls st in
  let st2 := (executeCommand w command (localOptions env) st1).1 in
  exists envVars,
    last (trace st2) = Some (EvSpawn command envVars (obj_get "DEFAULT_DIR" (processEnv w)))
    /\ (forall k, obj_get k envVars
                  = match latest k (map snd calls ++ [env]) with
                    | Some v => Some v
                    | None => obj_get k (processEnv w)
                    end)
    /\ forall k, obj_get k (overlay st2) = latest k (map snd calls ++ [env]).
Proof.
  intros Hnone Hcalls Henv Hpe st1 st2.
  assert (overlay st = []) as Hov0 by (unfold overlay; by rewrite Hnone).
  destruct (localCalls_overlay calls st Hcalls) as [Hobj1 Hget1].
  { rewrite Hov0. apply NoDup_nil_2. }
  destruct (executeLocal_overlay w command env st1 Henv Hobj1) as (_ & Hget2).
  destruct (executeLocal_spawn w command env st1 Henv Hobj1 Hpe)
    as (envVars & Hlast & Hvars).
  exists envVars. split; [exact Hlast|]. split.
  - intros k. rewrite Hvars, latest_snoc, Hget1, Hov0. simpl.
    destruct (obj_get k env); [done|]. by destruct (latest k (map snd calls)).
  - intros k. fold st2 in Hget2. rewrite Hget2, latest_snoc, Hget1, Hov0. simpl.
    destruct (obj_get k env); [done|]. by destruct (latest k (map snd calls)).
Qed.

Lemma local_env_accumulates_witness :
  exists envVars,
    last (trace (executeCommand liveWorld "echo $A $B" (localOptions [("B", "2")])
                   (localCalls [(liveWorld, "echo $A", [("A", "1")])] init)).1)
    = Some (EvSpawn "echo $A $B" envVars None)
    /\ (forall k, obj_get k envVars
                  = match latest k ([[("A", "1")]] ++ [[("B", "2")]]) with
                    | Some v => Some v
                    | None => obj_get k [("PATH", "/usr/bin")]
                    end)
    /\ forall k,
         obj_get k (overlay (executeCommand liveWorld "echo $A $B" (localOptions [("B", "2")])
                               (localCalls [(liveWorld, "echo $A", [("A", "1")])] init)).1)
         = latest k ([[("A", "1")]] ++ [[("B", "2")]]).
Proof.
  apply (local_env_accumulates [(liveWorld, "echo $A", [("A", "1")])]
           liveWorld "echo $A $B" [("B", "2")] init).
  - reflexivity.
  - repeat constructor; simpl; rewrite ?elem_of_nil; tauto.
  - repeat constructor; simpl; rewrite ?elem_of_nil; tauto.
  - repeat constructor; simpl; rewrite ?elem_of_nil; tauto.
Defined.

(** The example of the specification, evaluated: the second child sees
    both [A] and [B]. *)
Example second_local_call_sees_both :
  last (trace (executeCommand liveWorld "echo $A $B" (localOptions [("B", "2")])
                 (localCalls [(liveWorld, "echo $A", [("A", "1")])] init)).1)
  = Some (EvSpawn "echo $A $B" [("PATH", "/usr/bin"); ("A", "1"); ("B", "2")] None).
Proof. vm_compute. reflexivity. Qed.

(** ** Session keys *)

(** C10.  The session key is a function of the host, and not an
    injective one: no host, the empty host and the host named [local]
    all have the key [local].  So local execution and a remote host
    named [local] use one entry: a local call leaves an entry where the
    remote path for [local] looks, and a local call adopts whatever
    entry is stored there, keeping its client and host. *)
Theorem session_key_collision :
  getSessionKey None = "local"
  /\ getSessionKey (Some "") = "local"
  /\ getSessionKey (Some "local") = "local"
  /\ (forall w command env st,
         is_Some (sessions (executeCommand w command (localOptions env) st).1
                  !! getSessionKey (Some "local")))
  /\ (forall w command env st s,
         sessions st !! getSessionKey (Some "local") = Some s ->
         exists s',
           sessions (executeCommand w command (localOptions env) st).1
             !! getSessionKey None = Some s'
           /\ s_client s' = s_client s
           /\ s_host s' = s_host s).
Proof.
  split; [reflexivity|]. split; [reflexivity|]. split; [reflexivity|].
  change (getSessionKey (Some "local")) with "local".
  change (getSessionKey None) with "local".
  split.
  - intros w command env st. rewrite executeCommand_local by done.
    unfold executeLocal.
    destruct (sessions st !! "local") as [s|]; cbn [fst emit sessions];
      rewrite resetTimeout_lookup; cbn [with_sessions sessions];
      rewrite lookup_insert_eq; by eexists.
  - intros w command env st s Hs. rewrite executeCommand_local by done.
    unfold executeLocal. rewrite Hs. cbn [fst emit sessions].
    rewrite resetTimeout_lookup. cbn [with_sessions sessions].
    rewrite lookup_insert_eq. by eexists.
Qed.

Lemma session_key_collision_witness :
  exists s',
    sessions (executeCommand liveWorld "pwd" (localOptions [])
                (executeCommand liveWorld "uptime" (remoteOptions "local" None) init).1).1
      !! getSessionKey None = Some s'
    /\ s_client s' = Some (new_client 0)
    /\ s_host s' = Some "local".
Proof.
  apply (proj2 (proj2 (proj2 (proj2 session_key_collision)))
           liveWorld "pwd" []
           (executeCommand liveWorld "uptime" (remoteOptions "local" None) init).1
           {| s_client := Some (new_client 0); s_connection := Some 0;
              s_timeout := Some 1; s_host := Some "local"; s_env := None |}).
  vm_compute. reflexivity.
Defined.

(** ** The remote command line *)

(** C2.  The command line sent for [echo $X] with [X] set to a, double
    quote, b.  The value's quote is escaped once by the export
    statement and the result is escaped again by the wrapper, which
    turns the first escape into an escaped backslash followed by a bare
    double quote. *)
Theorem quoted_env_value_command_line :
  remoteCommandLine quotedEnv "echo $X"
  = "/bin/bash --login -c " +:+ q
    +:+ "export X=" +:+ bq +:+ "a" +:+ String backslash bq +:+ "b" +:+ bq
    +:+ " && echo $X" +:+ q.
Proof. reflexivity. Qed.

(** Read by a shell, that line ends inside an open double quote: the
    bare quote after the escaped backslash closes the argument of [-c]
    early, and the final quote opens a quotation that is never closed. *)
Lemma quoted_env_value_unbalanced :
  quoting_at_end (remoteCommandLine quotedEnv "echo $X") = InDouble.
Proof. reflexivity. Qed.

(** A value without quotes gives a balanced line. *)
Lemma plain_env_value_balanced :
  quoting_at_end (remoteCommandLine [("X", "ab")] "echo $X") = Unquoted.
Proof. reflexivity. Qed.

(** ** Timers, dispatch and teardown *)

Lemma disconnectSession_effects key st s :
  sessions st !! key = Some s ->
  trace (disconnectSession key st) = trace st ++ closing s ++ clearing s
  /\ sessions (disconnectSession key st) = delete key (sessions st).
Proof.
  intros Hs. unfold disconnectSession, closing, clearing. rewrite Hs.
  destruct (s_client s) as [c|], (s_timeout s) as [t|]; simpl;
    rewrite <- ?app_assoc, ?app_nil_r; by split.
Qed.

(** A completed local command is followed by no timer event, and
    teardown of the session left by a remote command closes the client
    before it clears the session's timer. *)
Lemma timer_not_reset_at_completion_nor_cleared_first :
  (executeCommand liveWorld "true" (localOptions []) init).2
  = Resolved {| stdout := ""; stderr := "" |}
  /\ reset_on_completion (trace (executeCommand liveWorld "true" (localOptions []) init).1)
     = false
  /\ sessions afterFirstCall !! "web1" = Some web1Session
  /\ trace (disconnectSession "web1" afterFirstCall)
     = trace afterFirstCall ++ [EvClientEnd 0; EvClearTimeout 1]
  /\ cleared_before_close 1 0 (trace (disconnectSession "web1" afterFirstCall)) = false.
Proof. vm_compute. repeat split. Qed.

(** C9.  The idle timer is armed when a command is dispatched, not when
    it completes: on the local path the timer is armed and the child is
    spawned, and nothing follows; on the remote path, once a session is
    obtained, the timer is armed, the command is sent, and afterwards
    the timer is re-armed once for each chunk of stdout.  Teardown of a
    session closes its client first, clears its timer next, and removes
    the entry. *)
Theorem timer_armed_at_dispatch_and_cleared_after_close w command :
  (forall key st s,
      sessions st !! key = Some s ->
      trace (disconnectSession key st) = trace st ++ closing s ++ clearing s
      /\ sessions (disconnectSession key st) = delete key (sessions st))
  /\ (forall options st,
         truthy (opt_host options) = false ->
         exists pre envVars cwd,
           trace (executeCommand w command options st).1
           = trace st ++ pre
             ++ [EvSetTimeout (nextTimer st) "local" sessionTimeout;
                 EvSpawn command envVars cwd]
           /\ Forall timer_event pre)
  /\ (forall host env st st1 c,
         host ≠ "" ->
         obtainSession w (getSessionKey (Some host)) host st = (st1, Ok c) ->
         exists pre post,
           trace (executeCommand w command (remoteOptions host env) st).1
           = trace st1 ++ pre
             ++ [EvSetTimeout (nextTimer st1) (getSessionKey (Some host)) sessionTimeout;
                 EvClientExec (cid c) (remoteCommandLine (default [] env) command)]
             ++ post
           /\ Forall timer_event pre
           /\ Forall timer_event post
           /\ armings (getSessionKey (Some host)) post
              = match remote w with
                | ExecFail _ => 0
                | ExecStream evs => dataChunks evs
                end).
Proof.
  split; [exact disconnectSession_effects|]. split.
  - intros options st Hlocal. rewrite executeCommand_local by done.
    unfold executeLocal.
    destruct (sessions st !! "local") as [s|] eqn:Hs; cbn [fst]; rewrite trace_emit.
    + edestruct (resetTimeout_arms "local"
                   (with_sessions
                      (<["local" := set_env (Some (spread2 (default [] (s_env s))
                                                     (default [] (opt_env options)))) s]>
                         (sessions st)) st)) as (pre & -> & Hpre).
      { cbn [with_sessions sessions]. apply lookup_insert_eq. }
      exists pre. eexists _, _. cbn [with_sessions trace nextTimer].
      split; [by rewrite <- !app_assoc|].
      subst pre. simpl. destruct (s_timeout s); by repeat constructor.
    + edestruct (resetTimeout_arms "local"
                   (with_sessions
                      (<["local" := {| s_client := None; s_connection := None;
                                       s_timeout := None; s_host := None;
                                       s_env := Some (spread1 (default [] (opt_env options))) |}]>
                         (sessions st)) st)) as (pre & -> & Hpre).
      { cbn [with_sessions sessions]. apply lookup_insert_eq. }
      exists pre. eexists _, _. cbn [with_sessions trace nextTimer].
      split; [by rewrite <- !app_assoc|].
      subst pre. simpl. constructor.
  - intros host env st st1 c Hne Hobtain.
    rewrite executeCommand_remote by done. unfold executeRemote. rewrite Hobtain.
    destruct (obtainSession_ok _ _ _ _ _ _ Hobtain) as (s & Hs & _).
    destruct (runRemote_effects w (getSessionKey (Some host)) command (default [] env)
                c st1 s Hs)
      as (pre & post & Htr & Hpre & Hpost & Harm & _).
    exists pre, post. repeat split; try done.
    subst pre. destruct (s_timeout s); by repeat constructor.
Qed.

Lemma timer_armed_at_dispatch_and_cleared_after_close_witness :
  (trace (disconnectSession "web1" afterFirstCall)
   = trace afterFirstCall ++ closing web1Session ++ clearing web1Session
   /\ sessions (disconnectSession "web1" afterFirstCall)
      = delete "web1" (sessions afterFirstCall))
  /\ (exists pre envVars cwd,
         trace (executeCommand liveWorld "uptime" (localOptions []) init).1
         = trace init ++ pre
           ++ [EvSetTimeout (nextTimer init) "local" sessionTimeout;
               EvSpawn "uptime" envVars cwd]
         /\ Forall timer_event pre)
  /\ (exists pre post,
         trace (executeCommand liveWorld "uptime" (remoteOptions "web1" None) init).1
         = trace connectedState ++ pre
           ++ [EvSetTimeout (nextTimer connectedState) "web1" sessionTimeout;
               EvClientExec 0 (remoteCommandLine [] "uptime")]
           ++ post
         /\ Forall timer_event pre
         /\ Forall timer_event post
         /\ armings "web1" post = 1).
Proof.
  pose proof (timer_armed_at_dispatch_and_cleared_after_close liveWorld "uptime")
    as (Hteardown & Hlocal & Hremote).
  split; [|split].
  - apply (Hteardown "web1" afterFirstCall web1Session). vm_compute. reflexivity.
  - apply (Hlocal (localOptions []) init). reflexivity.
  - apply (Hremote "web1" None init connectedState (new_client 0)).
    + discriminate.
    + vm_compute. reflexivity.
Defined.

(** * Further properties of the executor *)

(** ** Teardown *)

Lemma disconnectSession_gone key st :
  sessions (disconnectSession key st) !! key = None.
Proof.
  unfold disconnectSession. destruct (sessions st !! key) as [s|] eqn:Hs; [|done].
  cbn [with_sessions sessions]. apply lookup_delete_eq.
Qed.

(** X1.  Tearing a session down removes its entry and no other; with no
    entry for the key it does nothing at all, so tearing down twice is
    tearing down once. *)
Theorem disconnectSession_removes_only_its_key key st :
  sessions (disconnectSession key st) !! key = None
  /\ (forall k, k ≠ key -> sessions (disconnectSession key st) !! k = sessions st !! k)
  /\ (sessions st !! key = None -> disconnectSession key st = st)
  /\ disconnectSession key (disconnectSession key st) = disconnectSession key st.
Proof.
  assert (sessions (disconnectSession key st) !! key = None) as Hgone.
  { unfold disconnectSession. destruct (sessions st !! key) as [s|] eqn:Hs; [|done].
    cbn [with_sessions sessions]. apply lookup_delete_eq. }
  assert (forall st0, sessions st0 !! key = None -> disconnectSession key st0 = st0) as Hnoop.
  { intros st0 H0. unfold disconnectSession. by rewrite H0. }
  repeat split; try done.
  - intros k Hne. unfold disconnectSession.
    destruct (sessions st !! key) as [s|]; [|done].
    cbn [with_sessions sessions]. rewrite lookup_delete_ne by done.
    by destruct (s_client s), (s_timeout s).
  - by apply Hnoop.
  - by apply Hnoop.
Qed.

Lemma disconnectSession_removes_only_its_key_witness :
  sessions (disconnectSession "web1" afterFirstCall) !! "web1" = None
  /\ (forall k, k ≠ "web1" ->
        sessions (disconnectSession "web1" afterFirstCall) !! k = sessions afterFirstCall !! k)
  /\ (sessions afterFirstCall !! "web1" = None ->
      disconnectSession "web1" afterFirstCall = afterFirstCall)
  /\ disconnectSession "web1" (disconnectSession "web1" afterFirstCall)
     = disconnectSession "web1" afterFirstCall.
Proof. apply (disconnectSession_removes_only_its_key "web1" afterFirstCall). Defined.

Lemma disconnectSession_lookup_ne key k st :
  k ≠ key -> sessions (disconnectSession key st) !! k = sessions st !! k.
Proof.
  intros Hne. unfold disconnectSession.
  destruct (sessions st !! key) as [s|]; [|done].
  cbn [with_sessions sessions]. rewrite lookup_delete_ne by done.
  by destruct (s_client s), (s_timeout s).
Qed.

Lemma disconnectSession_trace key st :
  trace (disconnectSession key st) = trace st ++ teardownEvents (sessions st) key.
Proof.
  unfold teardownEvents. destruct (sessions st !! key) as [s|] eqn:Hs.
  - by destruct (disconnectSession_effects key st s Hs).
  - unfold disconnectSession. rewrite Hs. by rewrite app_nil_r.
Qed.

Lemma teardown_fold_trace keys st :
  NoDup keys ->
  trace (fold_left (fun st k => disconnectSession k st) keys st)
  = trace st ++ flat_map (teardownEvents (sessions st)) keys.
Proof.
  revert st. induction keys as [|k keys IH]; intros st Hnd; simpl.
  - by rewrite app_nil_r.
  - apply NoDup_cons in Hnd as [Hk Hnd].
    rewrite IH by done. rewrite disconnectSession_trace, <- app_assoc.
    do 2 f_equal. clear IH Hnd.
    induction keys as [|k' keys IH]; simpl; [done|].
    apply not_elem_of_cons in Hk as [Hne Hk].
    rewrite IH by done. f_equal.
    unfold teardownEvents. by rewrite disconnectSession_lookup_ne.
Qed.

(** X3.  Shutdown.  Given the keys of the table, each once,
    [disconnect] tears the sessions down one after the other in that
    order (client closed, then timer cleared, for each) and leaves the
    table empty; every stored client is closed and every stored timer is
    cleared. *)
Theorem disconnect_closes_everything keys st :
  NoDup keys ->
  (forall k, is_Some (sessions st !! k) -> k ∈ keys) ->
  sessions (disconnect keys st) = ∅
  /\ trace (disconnect keys st)
     = trace st ++ flat_map (teardownEvents (sessions st)) keys
  /\ (forall k s c, sessions st !! k = Some s -> s_client s = Some c ->
        EvClientEnd (cid c) ∈ flat_map (teardownEvents (sessions st)) keys)
  /\ (forall k s t, sessions st !! k = Some s -> s_timeout s = Some t ->
        EvClearTimeout t ∈ flat_map (teardownEvents (sessions st)) keys).
Proof.
  intros Hnd Hcover. unfold disconnect. cbn [with_sessions sessions trace].
  split; [done|]. split; [by apply teardown_fold_trace|].
  split.
  - intros k s c Hs Hc. apply list_elem_of_In, in_flat_map.
    exists k. split; [apply list_elem_of_In, Hcover; by eexists|].
    apply list_elem_of_In. unfold teardownEvents, closing. rewrite Hs, Hc.
    apply elem_of_app. left. apply list_elem_of_singleton. done.
  - intros k s t Hs Ht. apply list_elem_of_In, in_flat_map.
    exists k. split; [apply list_elem_of_In, Hcover; by eexists|].
    apply list_elem_of_In. unfold teardownEvents, clearing. rewrite Hs, Ht.
    apply elem_of_app. right. apply list_elem_of_singleton. done.
Qed.

Lemma twoSessions_store :
  sessions twoSessions = <["local" := localSession]> (<["web1" := web1Session]> ∅).
Proof. vm_compute. reflexivity. Defined.

Lemma disconnect_closes_everything_witness :
  sessions (disconnect ["web1"; "local"] twoSessions) = ∅
  /\ trace (disconnect ["web1"; "local"] twoSessions)
     = trace twoSessions
       ++ flat_map (teardownEvents (sessions twoSessions)) ["web1"; "local"]
  /\ (forall k s c, sessions twoSessions !! k = Some s -> s_client s = Some c ->
        EvClientEnd (cid c)
        ∈ flat_map (teardownEvents (sessions twoSessions)) ["web1"; "local"])
  /\ (forall k s t, sessions twoSessions !! k = Some s -> s_timeout s = Some t ->
        EvClearTimeout t
        ∈ flat_map (teardownEvents (sessions twoSessions)) ["web1"; "local"]).
Proof.
  apply (disconnect_closes_everything ["web1"; "local"] twoSessions).
  - apply NoDup_cons. split.
    + intros H. apply list_elem_of_singleton in H. discriminate.
    + apply NoDup_singleton.
  - intros k [s Hs]. rewrite twoSessions_store in Hs.
    destruct (decide (k = "local")) as [->|Hl].
    + apply elem_of_cons. right. apply list_elem_of_singleton. reflexivity.
    + rewrite lookup_insert_ne in Hs by done.
      destruct (decide (k = "web1")) as [->|Hw].
      * apply elem_of_cons. left. reflexivity.
      * rewrite lookup_insert_ne in Hs by done. rewrite lookup_empty in Hs. discriminate.
Defined.

(** The shutdown of the two sessions, event by event. *)
Example shutdown_trace :
  flat_map (teardownEvents (sessions twoSessions)) ["web1"; "local"]
  = [EvClientEnd 0; EvClearTimeout 1; EvClearTimeout 2].
Proof. vm_compute. reflexivity. Qed.

(** ** What [connect] does for every network *)

Lemma resetTimeout_counts key st :
  exists new,
    trace (resetTimeout key st) = trace st ++ new
    /\ connectAttempts new = 0 /\ delays new = [] /\ keyReads new = 0.
Proof.
  destruct (resetTimeout_trace key st) as (new & Htr & Hnew).
  exists new. split; [done|]. clear Htr.
  induction Hnew as [|e new He _ (IH1 & IH2 & IH3)]; [done|].
  destruct e; try done.
Qed.

(** The loop reads, dials and sleeps within its budget. *)
Lemma connect_loop_budget net key config path fuel i st :
  exists new,
    trace (connect_loop net key config path fuel i st).1 = trace st ++ new
    /\ connectAttempts new <= fuel
    /\ keyReads new <= fuel
    /\ length (delays new) <= maxRetries - 1 - i
    /\ Forall (fun ms => ms = retryDelayMs) (delays new).
Proof.
  revert i st. induction fuel as [|fuel IH]; intros i st.
  - exists []. simpl. rewrite app_nil_r. repeat split; try lia. constructor.
  - cbn [connect_loop]. destruct (readKey net i) as [|e].
    + destruct (dial net i) as [|err].
      * cbn [fst with_sessions trace].
        destruct (resetTimeout_counts key
                    (emit (EvConnect (nextClient st) config)
                       {| sessions := sessions (emit (EvReadKey path) st);
                          nextClient := S (nextClient (emit (EvReadKey path) st));
                          nextTimer := nextTimer (emit (EvReadKey path) st);
                          trace := trace (emit (EvReadKey path) st) |}))
          as (new & Htr & Hc & Hd & Hk).
        cbn [emit trace sessions nextClient nextTimer cid new_client] in *.
        exists ([EvReadKey path; EvConnect (nextClient st) config] ++ new).
        split; [rewrite Htr; by rewrite <- !app_assoc|].
        rewrite connectAttempts_app, keyReads_app, delays_app, Hc, Hd, Hk.
        simpl. repeat split; try lia. constructor.
      * destruct (i <? maxRetries - 1)%nat eqn:Hi.
        -- apply Nat.ltb_lt in Hi.
           edestruct (IH (S i)) as (new & Htr & Hc & Hk & Hd & Hall).
           eexists ([EvReadKey path; EvConnect (nextClient st) config;
                     EvDelay retryDelayMs] ++ new).
           split; [rewrite Htr; cbn [emit trace]; by rewrite <- !app_assoc|].
           rewrite connectAttempts_app, keyReads_app, delays_app.
           cbn [connectAttempts keyReads delays app length].
           repeat split; try lia. by constructor.
        -- exists [EvReadKey path; EvConnect (nextClient st) config].
           cbn [fst emit trace]. split; [by rewrite <- !app_assoc|].
           simpl. repeat split; try lia. constructor.
    + exists [EvReadKey path]. cbn [fst emit trace]. split; [done|].
      simpl. repeat split; try lia. constructor.
Qed.

(** X4.  The retry budget.  Whatever the network answers, one call of
    [connect] reads the key at most three times, dials at most three
    connections and sleeps at most twice, two seconds each time. *)
Theorem connect_respects_retry_budget net hostAlias st :
  exists new,
    trace (connect net hostAlias st).1 = trace st ++ new
    /\ connectAttempts new <= 3
    /\ keyReads new <= 3
    /\ length (delays new) <= 2
    /\ Forall (fun ms => ms = 2000%Z) (delays new).
Proof.
  unfold connect, checkExisting.
  destruct (sessions st !! getSessionKey (Some hostAlias)) as [[[c|] [p|] t h e]|];
    try apply (connect_loop_budget net _ _ _ maxRetries 0 st).
  destruct ((0 <? readyListeners c)%nat || (0 <? dataListeners c)%nat).
  - exists []. cbn [fst]. rewrite app_nil_r. simpl. repeat split; try lia. constructor.
  - apply (connect_loop_budget net _ _ _ maxRetries 0
             (with_sessions (delete (getSessionKey (Some hostAlias)) (sessions st)) st)).
Qed.

(** The loop changes no entry but the one under its key. *)
Lemma connect_loop_frame net key config path fuel i st k :
  k ≠ key ->
  sessions (connect_loop net key config path fuel i st).1 !! k = sessions st !! k.
Proof.
  intros Hne. revert i st. induction fuel as [|fuel IH]; intros i st; [done|].
  cbn [connect_loop]. destruct (readKey net i) as [|e]; [|done].
  destruct (dial net i) as [|err].
  - cbn [fst with_sessions sessions]. rewrite lookup_insert_ne by done.
    by rewrite resetTimeout_lookup_ne.
  - destruct (i <? maxRetries - 1)%nat; [|done]. by rewrite IH.
Qed.

(** How the loop can end: with an error and the store as it was, or
    with a new handle under the key. *)
Lemma connect_loop_outcome net key config path fuel i st :
  0 < fuel ->
  maxRetries <= fuel + i ->
  match (connect_loop net key config path fuel i st).2 with
  | Throw _ =>
      sessions (connect_loop net key config path fuel i st).1 = sessions st
      /\ nextTimer (connect_loop net key config path fuel i st).1 = nextTimer st
  | Ok _ =>
      exists c,
        sessions (connect_loop net key config path fuel i st).1 !! key
        = Some (freshHandle c (cc_host config))
        /\ nextClient st <= c
  end.
Proof.
  revert i st. induction fuel as [|fuel IH]; intros i st Hfuel Hle; [lia|].
  cbn [connect_loop]. destruct (readKey net i) as [|e]; [|done].
  destruct (dial net i) as [|err].
  - cbn [fst snd with_sessions sessions]. exists (nextClient st).
    split; [apply lookup_insert_eq | done].
  - destruct (i <? maxRetries - 1)%nat eqn:Hi; [|done].
    apply Nat.ltb_lt in Hi.
    specialize (IH (S i)
                  (emit (EvDelay retryDelayMs)
                     (emit (EvConnect (nextClient st) config)
                        {| sessions := sessions (emit (EvReadKey path) st);
                           nextClient := S (nextClient (emit (EvReadKey path) st));
                           nextTimer := nextTimer (emit (EvReadKey path) st);
                           trace := trace (emit (EvReadKey path) st) |}))
                  ltac:(lia) ltac:(lia)).
    cbn [new_client cid] in *.
    destruct (connect_loop net key config path fuel (S i) _) as [st' [[]|e']];
      cbn [fst snd] in *; [|done].
    destruct IH as (c & Hc & Hge). exists c. split; [done|].
    cbn [emit nextClient] in Hge. lia.
Qed.

(** X5.  How [connect] can end, whatever the network answers.  If it
    throws, the store is as the initial check left it and no timer was
    armed: nothing is half installed.  If it returns, the key holds a
    session with a client and a connection promise. *)
Theorem connect_installs_or_leaves_alone net hostAlias st :
  match (connect net hostAlias st).2 with
  | Throw _ =>
      exists st0,
        checkExisting (getSessionKey (Some hostAlias)) st = inr st0
        /\ sessions (connect net hostAlias st).1 = sessions st0
        /\ nextTimer (connect net hostAlias st).1 = nextTimer st0
  | Ok _ =>
      exists s c p,
        sessions (connect net hostAlias st).1 !! getSessionKey (Some hostAlias) = Some s
        /\ s_client s = Some c
        /\ s_connection s = Some p
  end.
Proof.
  unfold connect.
  destruct (checkExisting (getSessionKey (Some hostAlias)) st) as [st1|st0] eqn:Hcheck.
  - cbn [fst snd]. unfold checkExisting in Hcheck.
    destruct (sessions st !! getSessionKey (Some hostAlias)) as [[[c|] [p|] t h e]|] eqn:Hs;
      try discriminate.
    destruct ((0 <? readyListeners c)%nat || (0 <? dataListeners c)%nat); [|discriminate].
    injection Hcheck as <-. rewrite Hs. by eexists _, _, _.
  - pose proof (connect_loop_outcome net (getSessionKey (Some hostAlias))
                  (connectionConfigOf net hostAlias) (privateKeyPathOf net)
                  maxRetries 0 st0) as Hout.
    destruct (connect_loop net _ _ _ maxRetries 0 st0) as [st' [[]|e]]; cbn [fst snd] in *.
    + destruct Hout as (c & Hc & _); [unfold maxRetries; lia | lia |].
      by eexists _, _, _.
    + exists st0. destruct Hout; [unfold maxRetries; lia | lia |]. done.
Qed.

Lemma connect_ok_has_client net hostAlias st st' :
  connect net hostAlias st = (st', Ok tt) ->
  exists s c, sessions st' !! getSessionKey (Some hostAlias) = Some s /\ s_client s = Some c.
Proof.
  intros H.
  pose proof (connect_loop_outcome net (getSessionKey (Some hostAlias))
                (connectionConfigOf net hostAlias) (privateKeyPathOf net) maxRetries 0) as Hloop.
  unfold connect in H.
  destruct (checkExisting (getSessionKey (Some hostAlias)) st) as [st1|st0] eqn:Hcheck.
  - injection H as <-. unfold checkExisting in Hcheck.
    destruct (sessions st !! getSessionKey (Some hostAlias)) as [[[c|] [p|] t h e]|] eqn:Hs;
      try discriminate.
    destruct ((0 <? readyListeners c)%nat || (0 <? dataListeners c)%nat); [|discriminate].
    injection Hcheck as <-. eauto.
  - specialize (Hloop st0 ltac:(unfold maxRetries; lia) ltac:(lia)).
    rewrite H in Hloop. cbn [fst snd] in Hloop. destruct Hloop as (c & Hc & _).
    eexists _, _. split; [exact Hc | reflexivity].
Qed.

(** X6.  [obtainSession] fails only with the probe's exception or with
    the error [connect] threw; when it succeeds its client is the one
    stored under the key.  The branch that reports that no session
    could be created is never taken. *)
Theorem obtainSession_fails_only_through_probe_or_connect w host st :
  match (obtainSession w (getSessionKey (Some host)) host st).2 with
  | Ok c =>
      exists s,
        sessions (obtainSession w (getSessionKey (Some host)) host st).1
          !! getSessionKey (Some host) = Some s
        /\ s_client s = Some c
  | Throw e =>
      probe w = ProbeThrows e
      \/ exists st0,
           connect (net w) host st0
           = ((obtainSession w (getSessionKey (Some host)) host st).1, Throw e)
  end.
Proof.
  destruct (obtainSession w (getSessionKey (Some host)) host st) as [st' [c|e]] eqn:Hob;
    cbn [fst snd].
  { by apply (obtainSession_ok w _ host st). }
  unfold obtainSession in Hob.
  assert (forall st0 (stored : option Session),
             (let '(st1, sessionData, connected) :=
                match connect (net w) host st0 with
                | (st1, Ok _) => (st1, sessions st1 !! getSessionKey (Some host), Ok tt)
                | (st1, Throw e0) => (st1, stored, Throw e0)
                end in
              match connected with
              | Throw e0 => (st1, Throw e0)
              | Ok _ =>
                  match sessionData ≫= s_client with
                  | None => (st1, Throw (noSessionError host))
                  | Some c => (st1, Ok c)
                  end
              end) = (st', Throw e) ->
             exists st0', connect (net w) host st0' = (st', Throw e)) as Hneed.
  { intros st0 stored H.
    destruct (connect (net w) host st0) as [st1 [[]|e0]] eqn:Hconn.
    - destruct (connect_ok_has_client _ _ _ _ Hconn) as (s & c & Hs & Hc).
      rewrite Hs in H. simpl in H. rewrite Hc in H. discriminate.
    - injection H as <- <-. eauto. }
  destruct (sessions st !! getSessionKey (Some host)) as [s|] eqn:Hs.
  - destruct (negb (bool_decide (s_host s = Some host))).
    + right. by apply (Hneed st (Some s)).
    + destruct (s_client s) as [c0|] eqn:Hc0.
      * unfold isConnectionActive in Hob.
        destruct (probe w) as [e0|e0|out|e0] eqn:Hprobe; cbn [negb] in Hob.
        -- left. by injection Hob as _ <-.
        -- right. by eapply (Hneed _ (Some s)).
        -- destruct (String.eqb (trim out) "ping"); cbn [negb] in Hob.
           ++ simpl in Hob. rewrite Hc0 in Hob. discriminate.
           ++ right. by eapply (Hneed _ (Some s)).
        -- right. by eapply (Hneed _ (Some s)).
      * right. by apply (Hneed st (Some s)).
  - right. by apply (Hneed st None).
Qed.

(** ** Calls and the store *)

Lemma connect_frame net hostAlias st k :
  k ≠ getSessionKey (Some hostAlias) ->
  sessions (connect net hostAlias st).1 !! k = sessions st !! k.
Proof.
  intros Hne. unfold connect, checkExisting.
  destruct (sessions st !! getSessionKey (Some hostAlias)) as [[[c|] [p|] t h e]|];
    try (by rewrite connect_loop_frame).
  destruct ((0 <? readyListeners c)%nat || (0 <? dataListeners c)%nat); [done|].
  rewrite connect_loop_frame by done. cbn [with_sessions sessions].
  by rewrite lookup_delete_ne.
Qed.

Lemma obtainSession_frame w host st k :
  k ≠ getSessionKey (Some host) ->
  sessions (obtainSession w (getSessionKey (Some host)) host st).1 !! k = sessions st !! k.
Proof.
  intros Hne. unfold obtainSession.
  assert (forall st0 (stored : option Session),
             sessions (let '(st1, sessionData, connected) :=
                         match connect (net w) host st0 with
                         | (st1, Ok _) =>
                             (st1, sessions st1 !! getSessionKey (Some host), Ok tt)
                         | (st1, Throw e0) => (st1, stored, Throw e0)
                         end in
                       match connected with
                       | Throw e0 => (st1, Throw e0)
                       | Ok _ =>
                           match sessionData ≫= s_client with
                           | None => (st1, Throw (noSessionError host))
                           | Some c => (st1, Ok c)
                           end
                       end).1 !! k = sessions st0 !! k) as Hneed.
  { intros st0 stored. pose proof (connect_frame (net w) host st0 k Hne) as Hf.
    destruct (connect (net w) host st0) as [st1 [[]|e0]]; cbn [fst] in Hf.
    - by destruct (sessions st1 !! getSessionKey (Some host) ≫= s_client).
    - done. }
  destruct (sessions st !! getSessionKey (Some host)) as [s|].
  - destruct (negb (bool_decide (s_host s = Some host))); [apply Hneed|].
    destruct (s_client s) as [c0|] eqn:Hc0; [|apply Hneed].
    unfold isConnectionActive.
    destruct (probe w) as [e0|e0|out|e0]; cbn [negb].
    + done.
    + by rewrite Hneed.
    + destruct (String.eqb (trim out) "ping"); cbn [negb].
      * simpl. by rewrite Hc0.
      * by rewrite Hneed.
    + by rewrite Hneed.
  - apply Hneed.
Qed.

Lemma run_stream_frame key evs out err settled st k :
  k ≠ key ->
  sessions (run_stream key evs out err settled st).1 !! k = sessions st !! k.
Proof.
  intros Hne. revert out err settled st.
  induction evs as [|ev evs IH]; intros out err settled st; [done|].
  destruct ev; simpl; rewrite IH; try done.
  by apply resetTimeout_lookup_ne.
Qed.

Lemma runRemote_frame w key command env c st k :
  k ≠ key ->
  sessions (runRemote w key command env c st).1 !! k = sessions st !! k.
Proof.
  intros Hne. unfold runRemote. destruct (remote w) as [e|evs].
  - cbn [fst emit sessions]. by apply resetTimeout_lookup_ne.
  - rewrite run_stream_frame by done. cbn [emit sessions].
    by apply resetTimeout_lookup_ne.
Qed.

(** X8.  A call touches no session but its own: after [executeCommand],
    local or remote, successful or not, every entry under another key
    is exactly as before, timer included. *)
Theorem executeCommand_touches_only_its_key w command options st k :
  k ≠ getSessionKey (opt_host options) ->
  sessions (executeCommand w command options st).1 !! k = sessions st !! k.
Proof.
  intros Hne. unfold executeCommand.
  destruct (truthy (opt_host options)) eqn:Hhost.
  - destruct (opt_host options) as [h|] eqn:Hh; [|discriminate].
    change (default "" (Some h)) with h. unfold executeRemote.
    pose proof (obtainSession_frame w h st k Hne) as Hf.
    destruct (obtainSession w (getSessionKey (Some h)) h st) as [st1 [c|e]];
      cbn [fst] in Hf; cbv beta iota; [|done].
    by rewrite runRemote_frame.
  - unfold executeLocal.
    destruct (sessions st !! getSessionKey (opt_host options)) as [s|];
      cbn [fst emit sessions]; rewrite resetTimeout_lookup_ne by done;
      cbn [with_sessions sessions]; by rewrite lookup_insert_ne.
Qed.

Lemma executeCommand_touches_only_its_key_witness :
  sessions (executeCommand deadWorld "ls" (remoteOptions "db1" None) twoSessions).1 !! "web1"
  = sessions twoSessions !! "web1".
Proof.
  apply (executeCommand_touches_only_its_key deadWorld "ls" (remoteOptions "db1" None)
           twoSessions "web1").
  discriminate.
Defined.

(** The first call of a host without session, as a command dispatched
    on the state [connect] leaves. *)
Lemma executeCommand_fresh w host command env st i :
  host ≠ "" ->
  sessions st !! getSessionKey (Some host) = None ->
  i < maxRetries ->
  attempts_fail (net w) i ->
  readKey (net w) i = KeyOk ->
  dial (net w) i = ConnReady ->
  executeCommand w command (remoteOptions host env) st
  = runRemote w (getSessionKey (Some host)) command (default [] env)
      (new_client (nextClient st + i)) (connect (net w) host st).1
  /\ sessions (connect (net w) host st).1 !! getSessionKey (Some host)
     = Some (freshHandle (nextClient st + i) (actualHostOf (net w) host))
  /\ connectAttempts (trace (connect (net w) host st).1)
     = connectAttempts (trace st) + S i.
Proof.
  intros Hne Hnone Hi Hfail Hr Hd.
  pose proof (connect_fresh_success (net w) host st i Hnone Hi Hfail Hr Hd) as Hconn.
  rewrite executeCommand_remote by done. unfold executeRemote.
  rewrite Hconn. cbn [fst sessions trace].
  rewrite lookup_insert_eq. split; [|split; [done|]].
  - rewrite (obtainSession_fresh w (getSessionKey (Some host)) host st _
               (freshHandle (nextClient st + i) (actualHostOf (net w) host))
               (new_client (nextClient st + i)) Hnone Hconn); [done | | done].
    cbn [sessions]. apply lookup_insert_eq.
  - rewrite !connectAttempts_app, failureTrace_connects. simpl. lia.
Qed.

(** X2.  After a session is torn down (as the idle timer does), the
    next command for that host connects again: it dials until a
    connection is ready, stores a handle with the client created for
    it, and sends the command on that client. *)
Theorem reconnect_after_teardown w host command env st i :
  host ≠ "" ->
  i < maxRetries ->
  attempts_fail (net w) i ->
  readKey (net w) i = KeyOk ->
  dial (net w) i = ConnReady ->
  let key := getSessionKey (Some host) in
  let st0 := disconnectSession key st in
  let st' := (executeCommand w command (remoteOptions host env) st0).1 in
  connectAttempts (trace st') = connectAttempts (trace st0) + S i
  /\ (exists s', sessions st' !! key = Some s'
                 /\ s_client s' = Some (new_client (nextClient st + i)))
  /\ EvClientExec (nextClient st + i) (remoteCommandLine (default [] env) command)
     ∈ trace st'.
Proof.
  intros Hne Hi Hfail Hr Hd key st0 st'.
  assert (sessions st0 !! key = None) as Hnone
    by apply disconnectSession_gone.
  assert (nextClient st0 = nextClient st) as Hnc.
  { subst st0. unfold disconnectSession. destruct (sessions st !! key) as [s|]; [|done].
    by destruct (s_client s), (s_timeout s). }
  destruct (executeCommand_fresh w host command env st0 i Hne Hnone Hi Hfail Hr Hd)
    as (Hexec & Hstored & Hcount).
  rewrite Hnc in *. subst key.
  destruct (runRemote_effects w (getSessionKey (Some host)) command (default [] env)
              (new_client (nextClient st + i)) (connect (net w) host st0).1 _ Hstored)
    as (pre & post & Htr & Hpre & Hpost & _ & Hu).
  subst st'. rewrite Hexec. simpl in Hpre. subst pre.
  split; [|split].
  - rewrite Htr, !connectAttempts_app, (connectAttempts_timers _ Hpost), Hcount.
    simpl. lia.
  - destruct (untimed_lookup _ _ (getSessionKey (Some host)) _ Hu Hstored)
      as (s' & Hs' & Hus).
    exists s'. split; [done|].
    change (s_client (untimed s') = Some (new_client (nextClient st + i))).
    by rewrite Hus.
  - rewrite Htr. rewrite !elem_of_app, !elem_of_cons. intuition.
Qed.

Lemma reconnect_after_teardown_witness :
  let st0 := disconnectSession "web1" afterFirstCall in
  let st' := (executeCommand liveWorld "df" (remoteOptions "web1" None) st0).1 in
  connectAttempts (trace st') = connectAttempts (trace st0) + 1
  /\ (exists s', sessions st' !! "web1" = Some s' /\ s_client s' = Some (new_client 1))
  /\ EvClientExec 1 (remoteCommandLine [] "df") ∈ trace st'.
Proof.
  apply (reconnect_after_teardown liveWorld "web1" "df" None afterFirstCall 0).
  - discriminate.
  - unfold maxRetries. lia.
  - intros j Hj. lia.
  - reflexivity.
  - reflexivity.
Defined.

(** X7.  A connection that becomes ready at iteration [i], after [i]
    refused attempts, costs [i] delays of two seconds, [i + 1] key reads
    and [i + 1] dials; the handle stored is the one of the last client,
    and the clients of the refused attempts are stored nowhere. *)
Theorem connect_succeeds_after_retries net hostAlias st i :
  sessions st !! getSessionKey (Some hostAlias) = None ->
  i < maxRetries ->
  attempts_fail net i ->
  readKey net i = KeyOk ->
  dial net i = ConnReady ->
  (connect net hostAlias st).2 = Ok tt
  /\ delays (trace (connect net hostAlias st).1)
     = delays (trace st) ++ replicate i 2000%Z
  /\ keyReads (trace (connect net hostAlias st).1) = keyReads (trace st) + S i
  /\ connectAttempts (trace (connect net hostAlias st).1)
     = connectAttempts (trace st) + S i
  /\ sessions (connect net hostAlias st).1
     = <[getSessionKey (Some hostAlias) :=
           freshHandle (nextClient st + i) (actualHostOf net hostAlias)]> (sessions st).
Proof.
  intros Hnone Hi Hfail Hr Hd.
  rewrite (connect_fresh_success net hostAlias st i Hnone Hi Hfail Hr Hd).
  cbn [fst snd trace sessions]. split; [done|].
  assert (forall c n, keyReads (failureTrace (connectionConfigOf net hostAlias)
                                  (privateKeyPathOf net) c n) = n) as Hk.
  { intros c n. revert c. induction n as [|n IH]; intros c; simpl; [done|]. by rewrite IH. }
  repeat split.
  - rewrite !delays_app, failureTrace_delays. simpl. by rewrite app_nil_r.
  - rewrite !keyReads_app, Hk. simpl. lia.
  - rewrite !connectAttempts_app, failureTrace_connects. simpl. lia.
Qed.

Lemma connect_succeeds_after_retries_witness :
  (connect aliasedNet "web1" init).2 = Ok tt
  /\ delays (trace (connect aliasedNet "web1" init).1) = [] ++ replicate 2 2000%Z
  /\ keyReads (trace (connect aliasedNet "web1" init).1) = 0 + 3
  /\ connectAttempts (trace (connect aliasedNet "web1" init).1) = 0 + 3
  /\ sessions (connect aliasedNet "web1" init).1
     = <["web1" := freshHandle 2 "10.0.0.5"]> ∅.
Proof.
  apply (connect_succeeds_after_retries aliasedNet "web1" init 2).
  - reflexivity.
  - unfold maxRetries. lia.
  - intros j Hj. destruct j as [|[|j]]; [| |lia];
      (split; [reflexivity | exists refused; reflexivity]).
  - reflexivity.
  - reflexivity.
Defined.

(** ** The remote stream *)

Lemma run_stream_error key evs e rest out err st :
  no_settle evs ->
  (run_stream key (evs ++ SError e :: rest) out err None st).2 = Rejected e.
Proof.
  unfold no_settle. revert out err st.
  induction evs as [|ev evs IH]; intros out err st Hns.
  - simpl. by rewrite run_stream_settled.
  - simpl in Hns. apply andb_prop in Hns as [Hev Hns].
    destruct ev; try discriminate; simpl; by rewrite IH.
Qed.

Lemma run_stream_pending key evs out err st :
  no_settle evs ->
  (run_stream key evs out err None st).2 = Pending.
Proof.
  unfold no_settle. revert out err st.
  induction evs as [|ev evs IH]; intros out err st Hns; [done|].
  simpl in Hns. apply andb_prop in Hns as [Hev Hns].
  destruct ev; try discriminate; simpl; by rewrite IH.
Qed.

(** X9.  Once a session is obtained, the first ['close'] or ['error']
    of the stream decides the call.  If it is an ['error'], the call is
    rejected with that error and the output collected so far is not
    returned; if the stream delivers neither, the call never settles. *)
Theorem remote_stream_error_or_silence w command host env st st1 c :
  host ≠ "" ->
  obtainSession w (getSessionKey (Some host)) host st = (st1, Ok c) ->
  (forall evs e rest,
      remote w = ExecStream (evs ++ SError e :: rest) ->
      no_settle evs ->
      (executeCommand w command (remoteOptions host env) st).2 = Rejected e)
  /\ (forall evs,
         remote w = ExecStream evs ->
         no_settle evs ->
         (executeCommand w command (remoteOptions host env) st).2 = Pending)
  /\ (forall e,
         remote w = ExecFail e ->
         (executeCommand w command (remoteOptions host env) st).2 = Rejected e).
Proof.
  intros Hne Hob. rewrite executeCommand_remote by done.
  unfold executeRemote. rewrite Hob. unfold runRemote.
  split; [|split].
  - intros evs e rest -> Hns. by apply run_stream_error.
  - intros evs -> Hns. by apply run_stream_pending.
  - by intros e ->.
Qed.

Lemma remote_stream_error_or_silence_witness :
  (executeCommand brokenStreamWorld "tail -f log" (remoteOptions "web1" None) init).2
  = Rejected (mkError "read ECONNRESET")
  /\ (executeCommand silentStreamWorld "tail -f log" (remoteOptions "web1" None) init).2
     = Pending.
Proof.
  split.
  - apply (proj1 (remote_stream_error_or_silence brokenStreamWorld "tail -f log" "web1"
                    None init connectedState (new_client 0)
                    ltac:(discriminate) ltac:(vm_compute; reflexivity))
             [SData "part"] (mkError "read ECONNRESET") [SClose]).
    + reflexivity.
    + reflexivity.
  - apply (proj1 (proj2 (remote_stream_error_or_silence silentStreamWorld "tail -f log"
                           "web1" None init connectedState (new_client 0)
                           ltac:(discriminate) ltac:(vm_compute; reflexivity)))
             [SData "tick"; SExit 0]).
    + reflexivity.
    + reflexivity.
Defined.

Lemma run_stream_strip_exit key evs out err settled st :
  run_stream key (strip_exit evs) out err settled st
  = run_stream key evs out err settled st.
Proof.
  revert out err settled st.
  induction evs as [|ev evs IH]; intros out err settled st; [done|].
  destruct ev; simpl; by rewrite IH.
Qed.

(** X10.  The exit status is never looked at: a call behaves the same,
    in its outcome and in everything it does, when the exit status
    events are taken out of the stream. *)
Theorem exit_status_is_ignored w command options st evs :
  remote w = ExecStream evs ->
  executeCommand (with_remote (ExecStream (strip_exit evs)) w) command options st
  = executeCommand w command options st.
Proof.
  intros Hremote. unfold executeCommand.
  destruct (truthy (opt_host options)); [|reflexivity].
  unfold executeRemote.
  change (obtainSession (with_remote (ExecStream (strip_exit evs)) w))
    with (obtainSession w).
  destruct (obtainSession w _ _ st) as [st1 [c|e]]; [|reflexivity].
  unfold runRemote. cbn [with_remote remote]. rewrite Hremote.
  apply run_stream_strip_exit.
Qed.

Lemma exit_status_is_ignored_witness :
  executeCommand
    (with_remote (ExecStream [SData "partial"; SErrData "grep: f: No such file"; SClose])
       exitTwoWorld)
    "grep x f" (remoteOptions "web1" None) init
  = executeCommand exitTwoWorld "grep x f" (remoteOptions "web1" None) init.
Proof.
  apply (exit_status_is_ignored exitTwoWorld "grep x f" (remoteOptions "web1" None) init
           [SData "partial"; SErrData "grep: f: No such file"; SExit 2; SClose]).
  reflexivity.
Defined.

(** ** Timers do not pile up *)

Lemma timerBalance_app a b : timerBalance (a ++ b) = (timerBalance a + timerBalance b)%Z.
Proof.
  induction a as [|e a IH]; simpl; [done|]. destruct e; lia.
Qed.

Lemma resetTimeout_balance key st s t :
  sessions st !! key = Some s ->
  s_timeout s = Some t ->
  timerBalance (trace (resetTimeout key st)) = timerBalance (trace st)
  /\ exists s', sessions (resetTimeout key st) !! key = Some s'
                /\ s_timeout s' = Some (nextTimer st).
Proof.
  intros Hs Ht. split.
  - destruct (resetTimeout_arms key st s Hs) as (pre & -> & ->).
    rewrite Ht, !timerBalance_app. simpl. lia.
  - rewrite resetTimeout_lookup, Hs. by eexists.
Qed.

Lemma run_stream_balance key evs out err settled st s t :
  sessions st !! key = Some s ->
  s_timeout s = Some t ->
  timerBalance (trace (run_stream key evs out err settled st).1) = timerBalance (trace st)
  /\ exists s' t', sessions (run_stream key evs out err settled st).1 !! key = Some s'
                   /\ s_timeout s' = Some t'.
Proof.
  revert out err settled st s t.
  induction evs as [|ev evs IH]; intros out err settled st s t Hs Ht.
  - split; [done | by eexists _, _].
  - destruct ev; simpl; try (by eapply IH).
    destruct (resetTimeout_balance key st s t Hs Ht) as (Hb & s' & Hs' & Ht').
    destruct (IH (out +:+ d) err settled (resetTimeout key st) s' _ Hs' Ht') as (Hb' & Hex).
    split; [by rewrite Hb', Hb | done].
Qed.

(** X11.  Timers do not pile up on a session in use.  When the session
    of a call already has a timer (and, for a remote call, is a session
    as [connect] stores them), the call clears exactly as many timers
    as it arms, and the session has a timer afterwards: one timer per
    session stays pending, however many chunks of output arrive. *)
Theorem timers_do_not_pile_up w command options st s t :
  sessions st !! getSessionKey (opt_host options) = Some s ->
  s_timeout s = Some t ->
  (truthy (opt_host options) = true ->
   exists c p, s_client s = Some c /\ s_connection s = Some p /\ 0 < readyListeners c) ->
  timerBalance (trace (executeCommand w command options st).1) = timerBalance (trace st)
  /\ exists s' t',
       sessions (executeCommand w command options st).1 !! getSessionKey (opt_host options)
       = Some s'
       /\ s_timeout s' = Some t'.
Proof.
  intros Hs Ht Hremote. unfold executeCommand.
  destruct (truthy (opt_host options)) eqn:Hhost.
  - destruct (opt_host options) as [h|] eqn:Hh; [|discriminate].
    change (default "" (Some h)) with h.
    destruct (Hremote eq_refl) as (c & p & Hc & Hp & Hl).
    unfold executeRemote.
    destruct (obtainSession_stored w h st s c p Hs Hc Hp Hl) as [Hstate Hres].
    destruct (obtainSession w (getSessionKey (Some h)) h st) as [sto r].
    cbn [fst snd] in Hstate, Hres.
    assert (timerBalance (trace sto) = timerBalance (trace st)
            /\ sessions sto !! getSessionKey (Some h) = Some s) as [Hbo Hso].
    { destruct Hstate as [->| ->]; [done|].
      rewrite trace_emit, timerBalance_app. simpl. split; [lia | done]. }
    destruct Hres as [->|(e & -> & _)].
    + unfold runRemote.
      destruct (resetTimeout_balance _ sto s t Hso Ht) as (Hb & s' & Hs' & Ht').
      destruct (remote w) as [e|evs].
      * cbn [fst emit trace sessions]. rewrite timerBalance_app, Hb. simpl.
        split; [lia | by eexists _, _].
      * destruct (run_stream_balance (getSessionKey (Some h)) evs "" "" None
                    (emit (EvClientExec (cid c)
                             (remoteCommandLine (default [] (opt_env options)) command))
                       (resetTimeout (getSessionKey (Some h)) sto))
                    s' _ Hs' Ht') as (Hb' & Hex).
        split; [|done]. rewrite Hb', trace_emit, timerBalance_app, Hb. simpl. lia.
    + cbn [fst]. split; [done | by eexists _, _].
  - unfold executeLocal. rewrite Hs. cbn [fst].
    rewrite trace_emit, timerBalance_app.
    edestruct (resetTimeout_balance (getSessionKey (opt_host options))
                 (with_sessions
                    (<[getSessionKey (opt_host options) :=
                         set_env (Some (spread2 (default [] (s_env s))
                                          (default [] (opt_env options)))) s]>
                       (sessions st)) st)) as (Hb & s' & Hs' & Ht').
    { cbn [with_sessions sessions]. apply lookup_insert_eq. }
    { exact Ht. }
    rewrite Hb. cbn [with_sessions trace emit sessions]. simpl.
    split; [lia | by eexists _, _].
Qed.

Lemma timers_do_not_pile_up_witness :
  timerBalance (trace (executeCommand liveWorld "df" (remoteOptions "web1" None)
                         afterFirstCall).1)
  = timerBalance (trace afterFirstCall)
  /\ exists s' t',
       sessions (executeCommand liveWorld "df" (remoteOptions "web1" None)
                   afterFirstCall).1 !! "web1" = Some s'
       /\ s_timeout s' = Some t'.
Proof.
  apply (timers_do_not_pile_up liveWorld "df" (remoteOptions "web1" None) afterFirstCall
           web1Session 1).
  - vm_compute. reflexivity.
  - reflexivity.
  - intros _. exists (new_client 0), 0. repeat split. simpl. lia.
Defined.

(** ** Configuration and connection parameters *)

Lemma or_else_nonempty o d : d ≠ "" -> or_else o d ≠ "".
Proof.
  intros Hd. unfold or_else. destruct o as [s|]; [|done].
  by destruct (String.eqb_spec s "").
Qed.

Lemma apply_directive_unknown parsed item :
  known_directive item = false -> apply_directive parsed item = parsed.
Proof.
  unfold known_directive, apply_directive. intros H.
  repeat (apply orb_false_elim in H as [H ?]).
  by repeat match goal with Heq : String.eqb _ _ = false |- _ => rewrite Heq; clear Heq end.
Qed.

Lemma forEachItem_known config acc :
  forEachItem (List.filter known_item config) acc = forEachItem config acc.
Proof.
  revert acc. induction config as [|[k v|c] config IH]; intros acc; [done| |done].
  cbn [List.filter known_item]. destruct (known_directive (k, v)) eqn:Hk.
  - cbn [forEachItem]. apply IH.
  - cbn [forEachItem]. rewrite IH. by rewrite apply_directive_unknown.
Qed.

(** X13.  Directives other than [HostName], [User], [IdentityFile],
    [Passphrase] and [Port] (in any letter case) have no influence on
    the parsed configuration: removing them from the block, comment
    lines staying where they are, gives the same result. *)
Theorem parseSshConfig_ignores_other_directives config :
  parseSshConfig (ConfigMatch (List.filter known_item config))
  = parseSshConfig (ConfigMatch config).
Proof. cbn [parseSshConfig]. by rewrite forEachItem_known. Qed.

Lemma apply_directive_fields parsed k v :
  hostname (apply_directive parsed (k, v))
  = (if String.eqb (toLowerCase k) "hostname" then Some v else hostname parsed)
  /\ user (apply_directive parsed (k, v))
     = (if String.eqb (toLowerCase k) "user" then Some v else user parsed)
  /\ identityFile (apply_directive parsed (k, v))
     = (if String.eqb (toLowerCase k) "identityfile" then Some v else identityFile parsed)
  /\ passphrase (apply_directive parsed (k, v))
     = (if String.eqb (toLowerCase k) "passphrase" then Some v else passphrase parsed)
  /\ port (apply_directive parsed (k, v))
     = (if String.eqb (toLowerCase k) "port" then Some (parseInt10 v) else port parsed).
Proof.
  unfold apply_directive. cbv zeta. change ((k, v).1) with k. change ((k, v).2) with v.
  destruct (String.eqb_spec (toLowerCase k) "hostname") as [Heq|];
    [rewrite ?Heq; by repeat split|].
  destruct (String.eqb_spec (toLowerCase k) "user") as [Heq|];
    [rewrite ?Heq; by repeat split|].
  destruct (String.eqb_spec (toLowerCase k) "identityfile") as [Heq|];
    [rewrite ?Heq; by repeat split|].
  destruct (String.eqb_spec (toLowerCase k) "passphrase") as [Heq|];
    [rewrite ?Heq; by repeat split|].
  destruct (String.eqb_spec (toLowerCase k) "port") as [Heq|]; by repeat split.
Qed.

Lemma fold_directives_fields ds acc :
  let p := fold_left apply_directive ds acc in
  hostname p = from_option Some (hostname acc) (last_value "hostname" ds)
  /\ user p = from_option Some (user acc) (last_value "user" ds)
  /\ identityFile p = from_option Some (identityFile acc) (last_value "identityfile" ds)
  /\ passphrase p = from_option Some (passphrase acc) (last_value "passphrase" ds)
  /\ port p = from_option (fun v => Some (parseInt10 v)) (port acc) (last_value "port" ds).
Proof.
  revert acc. induction ds as [|[k v] ds IH]; intros acc; [done|].
  cbn [fold_left last_value]. specialize (IH (apply_directive acc (k, v))).
  destruct IH as (H1 & H2 & H3 & H4 & H5).
  destruct (apply_directive_fields acc k v) as (F1 & F2 & F3 & F4 & F5).
  cbv zeta. rewrite H1, H2, H3, H4, H5, F1, F2, F3, F4, F5.
  repeat split.
  - destruct (last_value "hostname" ds); [done|].
    by destruct (String.eqb (toLowerCase k) "hostname").
  - destruct (last_value "user" ds); [done|].
    by destruct (String.eqb (toLowerCase k) "user").
  - destruct (last_value "identityfile" ds); [done|].
    by destruct (String.eqb (toLowerCase k) "identityfile").
  - destruct (last_value "passphrase" ds); [done|].
    by destruct (String.eqb (toLowerCase k) "passphrase").
  - destruct (last_value "port" ds); [done|].
    by destruct (String.eqb (toLowerCase k) "port").
Qed.

(** The loop over the items: it throws exactly when the block has a
    comment line, and otherwise folds the directives in order. *)
Lemma forEachItem_spec config acc :
  forEachItem config acc
  = if has_comment config then None
    else Some (fold_left apply_directive (directives_of config) acc).
Proof.
  revert acc. induction config as [|[k v|c] config IH]; intros acc; [done| |done].
  cbn [forEachItem has_comment existsb is_comment directives_of fold_left orb].
  apply IH.
Qed.

Lemma sshConfig_eta (p : SshConfig) :
  p = {| hostname := hostname p; user := user p; identityFile := identityFile p;
         passphrase := passphrase p; port := port p |}.
Proof. by destruct p. Qed.

(** The parsed configuration, field by field, from the directives that
    take effect. *)
Lemma parseSshConfig_fields found :
  parseSshConfig found
  = {| hostname := last_value "hostname" (effective_directives found);
       user := last_value "user" (effective_directives found);
       identityFile := last_value "identityfile" (effective_directives found);
       passphrase := last_value "passphrase" (effective_directives found);
       port := parseInt10 <$> last_value "port" (effective_directives found) |}.
Proof.
  destruct found as [| | |config]; try reflexivity.
  cbn [parseSshConfig effective_directives]. rewrite forEachItem_spec.
  destruct (has_comment config); [reflexivity|].
  change (default emptyConfig (Some ?x)) with x.
  rewrite (sshConfig_eta (fold_left _ _ _)).
  destruct (fold_directives_fields (directives_of config) emptyConfig)
    as (H1 & H2 & H3 & H4 & H5).
  cbv zeta in H1, H2, H3, H4, H5. rewrite H1, H2, H3, H4, H5.
  cbn [emptyConfig hostname user identityFile passphrase port].
  f_equal;
    match goal with |- context [last_value ?n ?l] => by destruct (last_value n l) end.
Qed.

(** X14.  A block with a comment line, as in the example of the README,
    parses to the empty configuration: the loop over the items fails on
    the comment, whatever the directives before it set.  In a block
    without comment each field is given by the last directive of that
    name, names compared without regard to letter case; a field without
    directive stays absent, and the port is [parseInt] of the last
    [Port] value, base 10. *)
Theorem parseSshConfig_last_directive_wins config :
  parseSshConfig (ConfigMatch config)
  = if has_comment config then emptyConfig
    else {| hostname := last_value "hostname" (directives_of config);
            user := last_value "user" (directives_of config);
            identityFile := last_value "identityfile" (directives_of config);
            passphrase := last_value "passphrase" (directives_of config);
            port := parseInt10 <$> last_value "port" (directives_of config) |}.
Proof.
  rewrite parseSshConfig_fields. cbn [effective_directives].
  by destruct (has_comment config).
Qed.

Example last_hostname_wins :
  hostname (parseSshConfig (ConfigMatch [Directive "HostName" "a.example"; Directive "User" "u";
                                         Directive "HOSTNAME" "b.example"]))
  = Some "b.example".
Proof. reflexivity. Qed.

(** The host block of the README: its comment line discards the
    directives before it. *)
Example readme_block_is_discarded :
  parseSshConfig (ConfigMatch [Directive "HostName" "your_remote_server_ip_or_hostname";
                               Directive "User" "your_username";
                               Directive "IdentityFile" "~/.ssh/id_rsa";
                               Directive "Port" "22";
                               Comment "# Passphrase your_passphrase"])
  = emptyConfig.
Proof. reflexivity. Qed.

(** X12.  The connection parameters, from the directives that take
    effect (those of the block found for the alias, unless one of its
    lines is a comment): a missing or empty [HostName], [User] or
    [IdentityFile] falls back to the alias, to [root] and to the
    default key file, each on its own; the port and the passphrase have
    no default.  So [connect] never dials an empty host name and never
    logs in as an empty user.  When the configuration cannot be read or
    parsed, has no block for the alias, or the block has a comment
    line, all the defaults apply. *)
Theorem connection_parameters_fall_back net hostAlias :
  hostAlias ≠ "" ->
  let ds := effective_directives (lookupConfig net) in
  connectionConfigOf net hostAlias
  = {| cc_host := or_else (last_value "hostname" ds) hostAlias;
       cc_port := parseInt10 <$> last_value "port" ds;
       cc_username := or_else (last_value "user" ds) "root";
       cc_passphrase := last_value "passphrase" ds;
       cc_keepaliveInterval := 60000; cc_timeout := 10000 |}
  /\ privateKeyPathOf net = or_else (last_value "identityfile" ds) (defaultKeyPath net)
  /\ cc_host (connectionConfigOf net hostAlias) ≠ ""
  /\ cc_username (connectionConfigOf net hostAlias) ≠ ""
  /\ (defaultKeyPath net ≠ "" -> privateKeyPathOf net ≠ "")
  /\ ((forall config, lookupConfig net = ConfigMatch config -> has_comment config = true) ->
      connectionConfigOf net hostAlias
      = {| cc_host := hostAlias; cc_port := None; cc_username := "root";
           cc_passphrase := None; cc_keepaliveInterval := 60000; cc_timeout := 10000 |}
      /\ privateKeyPathOf net = defaultKeyPath net).
Proof.
  intros Hne ds.
  assert (Hcfg : connectionConfigOf net hostAlias
    = {| cc_host := or_else (last_value "hostname" ds) hostAlias;
         cc_port := parseInt10 <$> last_value "port" ds;
         cc_username := or_else (last_value "user" ds) "root";
         cc_passphrase := last_value "passphrase" ds;
         cc_keepaliveInterval := 60000; cc_timeout := 10000 |}).
  { unfold connectionConfigOf, actualHostOf. by rewrite parseSshConfig_fields. }
  assert (Hkey : privateKeyPathOf net
    = or_else (last_value "identityfile" ds) (defaultKeyPath net)).
  { unfold privateKeyPathOf. by rewrite parseSshConfig_fields. }
  split; [exact Hcfg|]. split; [exact Hkey|].
  split; [by apply or_else_nonempty|]. split; [by apply or_else_nonempty|].
  split; [intros Hd; by apply or_else_nonempty|].
  intros Hno.
  assert (Hds : ds = []).
  { subst ds. unfold effective_directives.
    destruct (lookupConfig net) as [| | |config]; try reflexivity.
    by rewrite (Hno config eq_refl). }
  rewrite Hcfg, Hkey, Hds. by cbn.
Qed.

Lemma connection_parameters_fall_back_witness :
  connectionConfigOf aliasedNet "prod"
  = {| cc_host := "10.0.0.5"; cc_port := None; cc_username := "deploy";
       cc_passphrase := None; cc_keepaliveInterval := 60000; cc_timeout := 10000 |}
  /\ privateKeyPathOf aliasedNet = "/root/.ssh/id_rsa".
Proof.
  assert (Hne : "prod" ≠ "") by discriminate.
  destruct (connection_parameters_fall_back aliasedNet "prod" Hne) as (Hcfg & Hkey & _).
  split; [exact Hcfg | exact Hkey].
Defined.

(** ** The remote command line, read by a shell *)

Lemma quoting_from_app s a b :
  quoting_from s (a +:+ b) = quoting_from (quoting_from s a) b.
Proof.
  revert s. induction a as [|c a IH]; intros s; [done|].
  change (quoting_from (quote_step s c) (a +:+ b)
          = quoting_from (quoting_from (quote_step s c) a) b).
  apply IH.
Qed.

Lemma escaped_stays_in_double s :
  no_backslash s = true ->
  quoting_from InDouble (escape_dquotes s) = InDouble.
Proof.
  unfold no_backslash. induction s as [|c s IH]; [done|].
  cbn [all_chars]. intros H. apply andb_prop in H as [Hc Hs].
  cbn [escape_dquotes]. destruct (Ascii.eqb c dquote) eqn:Hq.
  - cbn [quoting_from quote_step]. rewrite Ascii.eqb_refl.
    cbn [quoting_from quote_step]. by apply IH.
  - cbn [quoting_from quote_step]. apply negb_true_iff in Hc. rewrite Hc, Hq.
    by apply IH.
Qed.

Lemma all_chars_app p a b : all_chars p (a +:+ b) = all_chars p a && all_chars p b.
Proof.
  induction a as [|c a IH]; [done|].
  change (p c && all_chars p (a +:+ b) = p c && all_chars p a && all_chars p b).
  rewrite IH. by destruct (p c).
Qed.

Lemma escape_dquotes_plain s : no_dquote s = true -> escape_dquotes s = s.
Proof.
  unfold no_dquote. induction s as [|c s IH]; [done|].
  cbn [all_chars escape_dquotes]. intros H. apply andb_prop in H as [Hc Hs].
  apply negb_true_iff in Hc. rewrite Hc. by rewrite IH.
Qed.

Lemma envSetup_no_backslash env :
  forallb plain_entry env = true -> no_backslash (envSetup env) = true.
Proof.
  unfold envSetup. induction env as [|kv env IH]; [done|].
  cbn [forallb]. intros H. apply andb_prop in H as [Hkv Henv].
  assert (no_backslash (exportStatement kv) = true) as Hexp.
  { unfold plain_entry in Hkv. apply andb_prop in Hkv as [Hkv Hq].
    apply andb_prop in Hkv as [Hk Hv].
    unfold exportStatement, or_else.
    rewrite (escape_dquotes_plain _ Hq).
    match goal with |- context [String.eqb ?x ""] => destruct (String.eqb x "") end;
      [done|].
    unfold no_backslash in *. rewrite !all_chars_app, Hk, Hv. reflexivity. }
  cbn [map]. destruct (map exportStatement env) as [|x r] eqn:Hmap.
  - exact Hexp.
  - change (join " && " (exportStatement kv :: x :: r))
      with (exportStatement kv +:+ " && " +:+ join " && " (x :: r)).
    unfold no_backslash in *. rewrite !all_chars_app, Hexp. cbn [andb].
    rewrite (IH Henv). reflexivity.
Qed.

Lemma shell_plain_no_backslash s : shell_plain s = true -> no_backslash s = true.
Proof.
  unfold shell_plain, no_backslash. induction s as [|c s IH]; [done|].
  cbn [all_chars]. intros H. apply andb_prop in H as [Hc Hs].
  rewrite (IH Hs). destruct (Ascii.eqb c backslash); [discriminate | reflexivity].
Qed.

Lemma shell_plain_entries env :
  forallb shell_plain_entry env = true -> forallb plain_entry env = true.
Proof.
  induction env as [|kv env IH]; [done|]. cbn [forallb]. intros H.
  apply andb_prop in H as [Hkv Henv]. rewrite (IH Henv).
  unfold shell_plain_entry in Hkv. apply andb_prop in Hkv as [Hkv Hq].
  apply andb_prop in Hkv as [Hk Hv]. unfold plain_entry.
  by rewrite (shell_plain_no_backslash _ Hk), (shell_plain_no_backslash _ Hv), Hq.
Qed.

(** X15.  When the command and the environment contain no backslash,
    backquote or dollar, and no environment value contains a double
    quote, the command line built for the remote side is balanced for a
    POSIX shell: it ends outside any quotation.  The command itself may
    contain double quotes; each is escaped once and stays inside the
    argument of [-c]. *)
Theorem plain_command_line_is_balanced env command :
  shell_plain command = true ->
  forallb shell_plain_entry env = true ->
  quoting_at_end (remoteCommandLine env command) = Unquoted.
Proof.
  intros Hcmd%shell_plain_no_backslash Henv%shell_plain_entries.
  assert (no_backslash (fullCommand env command) = true) as Hfull.
  { unfold fullCommand. pose proof (envSetup_no_backslash env Henv) as Hes.
    destruct (truthy (Some (envSetup env))); [|done].
    unfold no_backslash in *. by rewrite !all_chars_app, Hes, Hcmd. }
  unfold quoting_at_end, remoteCommandLine.
  rewrite !quoting_from_app.
  change (quoting_from (quoting_from Unquoted "/bin/bash --login -c ") q) with InDouble.
  by rewrite escaped_stays_in_double.
Qed.

Lemma plain_command_line_is_balanced_witness :
  quoting_at_end
    (remoteCommandLine [("GREETING", "hello world")]
       ("grep " +:+ q +:+ "two words" +:+ q +:+ " notes.txt"))
  = Unquoted.
Proof.
  apply (plain_command_line_is_balanced [("GREETING", "hello world")]
           ("grep " +:+ q +:+ "two words" +:+ q +:+ " notes.txt")).
  - reflexivity.
  - reflexivity.
Defined.

(** * Properties of [src/index.ts] *)

(** ** Host aliases *)

Example sampleConfig_aliases : parseSshConfigAliases (Some sampleConfig) = ["web1"; "db"].
Proof. reflexivity. Qed.

Lemma wide_space_width_take_alias c r :
  wide_space_width (String c r) = 0 ->
  wide_space_width (String c (take_alias r)) = 0.
Proof.
  intros H. destruct r as [|c2 r]; [done|]. cbn [take_alias].
  destruct (is_alias_char c2 && (wide_space_width (String c2 r) =? 0)%nat);
    [|done].
  destruct r as [|c3 r]; [done|]. cbn [take_alias].
  destruct (is_alias_char c3 && (wide_space_width (String c3 r) =? 0)%nat);
    [exact H|].
  cbn [wide_space_width] in *. cbv zeta in *.
  destruct ((nat_of_ascii c =? 194)%nat && (nat_of_ascii c2 =? 160)%nat); done.
Qed.

Lemma take_alias_clean s :
  all_chars is_alias_char (take_alias s) = true
  /\ no_wide_space (take_alias s) = true.
Proof.
  induction s as [|c s [IH1 IH2]]; [done|]. cbn [take_alias].
  destruct (is_alias_char c) eqn:Hc; [|done].
  destruct (wide_space_width (String c s) =? 0)%nat eqn:Hw; [|done].
  cbn [andb all_chars no_wide_space]. rewrite Hc, IH1, IH2.
  apply Nat.eqb_eq in Hw. by rewrite (wide_space_width_take_alias c s Hw).
Qed.

Lemma match_host_clean line a :
  match_host line = Some a ->
  a ≠ "" /\ all_chars is_alias_char a = true /\ no_wide_space a = true.
Proof.
  unfold match_host.
  destruct (String.eqb _ "host"); [|discriminate].
  cbv zeta. destruct (0 <? space_width _)%nat; [|discriminate].
  pose proof (take_alias_clean (trim_start (substring 4 (String.length line - 4) line)))
    as Hall.
  destruct (take_alias _) as [|x name]; [discriminate|].
  intros [= <-]. by split.
Qed.

(** X16.  Every alias listed for the configuration file is a non-empty
    word without white space, of one byte or wide, and without the
    pattern characters star, question mark and exclamation mark; a file
    that cannot be read gives no alias. *)
Theorem aliases_are_plain_words content a :
  a ∈ parseSshConfigAliases content ->
  a ≠ "" /\ all_chars is_alias_char a = true /\ no_wide_space a = true.
Proof.
  destruct content as [content|]; simpl; [|by intros H%elem_of_nil].
  unfold aliases_of_lines. intros Hin.
  apply list_elem_of_In, in_flat_map in Hin as (line & _ & Hin).
  unfold alias_of_line in Hin.
  destruct (String.eqb (trim line) "" || startsWith "#" (trim line)); [done|].
  destruct (match_host (trim line)) as [name|] eqn:Hm; [|done].
  destruct (String.eqb name ""); [done|].
  destruct Hin as [<-|[]]. by apply (match_host_clean (trim line)).
Qed.

Lemma aliases_are_plain_words_witness :
  "db" ≠ "" /\ all_chars is_alias_char "db" = true /\ no_wide_space "db" = true.
Proof.
  apply (aliases_are_plain_words (Some sampleConfig) "db").
  apply elem_of_cons. right. apply elem_of_cons. left. reflexivity.
Defined.

Lemma split_lines_nonempty s : split_lines s ≠ [].
Proof.
  destruct s as [|c s]; [done|]. simpl.
  destruct (Ascii.eqb c newline); [done|]. by destruct (split_lines s).
Qed.

Lemma split_lines_app a b :
  split_lines (a +:+ String newline b) = split_lines a ++ split_lines b.
Proof.
  induction a as [|c a IH].
  - change (split_lines (String newline b) = [""] ++ split_lines b).
    cbn [split_lines]. by rewrite Ascii.eqb_refl.
  - change (split_lines (String c (a +:+ String newline b))
            = split_lines (String c a) ++ split_lines b).
    cbn [split_lines]. rewrite IH. destruct (Ascii.eqb c newline); [done|].
    pose proof (split_lines_nonempty a). by destruct (split_lines a).
Qed.

Lemma aliases_split a b :
  aliases_of_lines (split_lines (a +:+ String newline b))
  = aliases_of_lines (split_lines a) ++ aliases_of_lines (split_lines b).
Proof. unfold aliases_of_lines. rewrite split_lines_app. apply flat_map_app. Qed.

(** X17.  The aliases of a file are the aliases of its lines, in order:
    cutting the file at any line break and listing the aliases of the
    two parts gives the same list. *)
Theorem aliases_of_parts a b :
  parseSshConfigAliases (Some (a +:+ String newline b))
  = parseSshConfigAliases (Some a) ++ parseSshConfigAliases (Some b).
Proof. apply aliases_split. Qed.

Lemma split_lines_single line : no_newline line = true -> split_lines line = [line].
Proof.
  unfold no_newline. induction line as [|c line IH]; [done|].
  cbn [all_chars split_lines]. intros H. apply andb_prop in H as [Hc Hl].
  apply negb_true_iff in Hc. rewrite Hc, IH by done. reflexivity.
Qed.

Lemma lower_n_not_space c r : lower_ascii c = "n"%char -> space_width (String c r) = 0.
Proof.
  intros H. assert (Hc : c = "n"%char \/ c = "N"%char).
  { destruct c as [[] [] [] [] [] [] [] []]; vm_compute in H;
      first [by left | by right | discriminate H]. }
  destruct Hc as [-> | ->]; by destruct r as [|c2 [|c3 r]].
Qed.

Lemma match_host_hostname line :
  toLowerCase (substring 0 8 line) = "hostname" -> match_host line = None.
Proof.
  intros H.
  destruct line as [|c1 [|c2 [|c3 [|c4 [|c5 [|c6 [|c7 [|c8 rest]]]]]]]];
    try discriminate H.
  cbn [substring toLowerCase] in H. injection H as H1 H2 H3 H4 H5 _ _ _.
  unfold match_host. cbn [substring toLowerCase String.length Nat.sub].
  rewrite H1, H2, H3, H4. cbn [String.eqb Ascii.eqb Bool.eqb andb].
  change (String.eqb "host" "host") with true. cbv iota zeta.
  by rewrite (lower_n_not_space c5 _ H5).
Qed.

Lemma alias_of_line_ignorable line : ignorable line = true -> alias_of_line line = [].
Proof.
  unfold ignorable, alias_of_line. intros H.
  destruct (String.eqb (trim line) "" || startsWith "#" (trim line)); [done|].
  simpl in H. apply String.eqb_eq in H. by rewrite (match_host_hostname _ H).
Qed.

(** X18.  Blank lines, comment lines and [HostName] directives (in any
    letter case, indented or not) are never taken for a host: such a
    line can be put into the file, or taken out of it, without changing
    the list of aliases. *)
Theorem ignorable_lines_add_no_alias a b line :
  no_newline line = true ->
  ignorable line = true ->
  parseSshConfigAliases (Some (a +:+ String newline (line +:+ String newline b)))
  = parseSshConfigAliases (Some (a +:+ String newline b)).
Proof.
  intros Hnl Hig. unfold parseSshConfigAliases. rewrite !aliases_split. f_equal.
  rewrite split_lines_single by done. unfold aliases_of_lines. simpl.
  by rewrite alias_of_line_ignorable.
Qed.

Lemma ignorable_lines_add_no_alias_witness :
  parseSshConfigAliases
    (Some ("Host web1" +:+ String newline ("  hostname 10.0.0.5" +:+ String newline "Host db1")))
  = parseSshConfigAliases (Some ("Host web1" +:+ String newline "Host db1")).
Proof.
  apply (ignorable_lines_add_no_alias "Host web1" "Host db1" "  hostname 10.0.0.5").
  - reflexivity.
  - reflexivity.
Defined.

(** ** The request handler *)

Lemma callTool_execute w arguments st :
  truthy (Some (commandOf arguments)) = true ->
  callTool w "execute_command" arguments st
  = let hostValue := default JUndefined (a_host <$> arguments) in
    match executeCommand w (commandOf arguments)
            {| opt_host := if jsTruthy hostValue then Some (jsString hostValue) else None;
               opt_env := Some (default [] (arguments ≫= a_env)) |} st with
    | (st', Resolved result) => (st', Replied (replyText result))
    | (st', Rejected error) => (st', Failed (outerCatch (innerCatch error)))
    | (st', Pending) => (st', Unsettled)
    end.
Proof.
  intros Hcmd. unfold callTool. change (String.eqb "execute_command" "execute_command") with true.
  cbn [negb]. fold (commandOf arguments). by rewrite Hcmd.
Qed.

Lemma outerCatch_internal e : mcp_code (outerCatch (innerCatch e)) = InternalError.
Proof. unfold innerCatch. by destruct (includes "SSH" (message e)). Qed.

(** X19.  The handler answers that a command is required exactly when
    the command argument, converted to a string, is empty; it then
    executes nothing.  A request with no command argument at all is not
    such a case: the missing value converts to the text [undefined],
    which is run as the command. *)
Theorem command_required_iff_empty_string w arguments st :
  ((callTool w "execute_command" arguments st).2 = Failed commandRequired
   <-> commandOf arguments = "")
  /\ (commandOf arguments = "" ->
      callTool w "execute_command" arguments st = (st, Failed commandRequired))
  /\ (default JUndefined (a_command <$> arguments) = JUndefined ->
      callTool w "execute_command" arguments st
      = callTool w "execute_command"
          (Some {| a_host := default JUndefined (a_host <$> arguments);
                   a_command := JString "undefined";
                   a_env := arguments ≫= a_env |}) st).
Proof.
  assert (commandOf arguments = "" ->
          callTool w "execute_command" arguments st = (st, Failed commandRequired)) as Hempty.
  { intros Hc. unfold callTool.
    change (String.eqb "execute_command" "execute_command") with true. cbn [negb].
    fold (commandOf arguments). by rewrite Hc. }
  split; [split|split].
  - intros Hfail. destruct (String.eqb_spec (commandOf arguments) "") as [|Hne]; [done|].
    assert (truthy (Some (commandOf arguments)) = true) as Ht.
    { unfold truthy. by destruct (String.eqb_spec (commandOf arguments) ""). }
    rewrite (callTool_execute w arguments st Ht) in Hfail. cbv zeta in Hfail.
    destruct (executeCommand w _ _ st) as [st' [o|e|]]; cbn [snd] in Hfail;
      try discriminate.
    injection Hfail as Hfail. pose proof (outerCatch_internal e) as Hcode.
    rewrite Hfail in Hcode. discriminate.
  - intros Hc. by rewrite Hempty.
  - exact Hempty.
  - intros Hundef.
    assert (commandOf arguments = "undefined") as Hc
      by (unfold commandOf; by rewrite Hundef).
    rewrite !callTool_execute; [|reflexivity | by rewrite Hc].
    rewrite Hc. reflexivity.
Qed.

Lemma command_required_iff_empty_string_witness :
  callTool liveWorld "execute_command"
    (Some {| a_host := JUndefined; a_command := JString ""; a_env := None |}) init
  = (init, Failed commandRequired)
  /\ callTool liveWorld "execute_command" None init
     = callTool liveWorld "execute_command"
         (Some {| a_host := JUndefined; a_command := JString "undefined"; a_env := None |})
         init.
Proof.
  split.
  - apply (proj1 (proj2 (command_required_iff_empty_string liveWorld
             (Some {| a_host := JUndefined; a_command := JString ""; a_env := None |}) init))).
    reflexivity.
  - apply (proj2 (proj2 (command_required_iff_empty_string liveWorld None init))).
    reflexivity.
Defined.

Lemma keyReadError_mentions_SSH path e : includes "SSH" (message (keyReadError path e)) = true.
Proof.
  unfold keyReadError. destruct (bool_decide (fs_code e = Some "ENOENT")); [reflexivity|].
  destruct (includes "unsupported format" (fs_message e)
            || includes "Cannot parse privateKey" (fs_message e)); reflexivity.
Qed.

(** X20.  A key file that cannot be read reaches the caller as an
    internal error whose message is the key error wrapped as an SSH
    connection error: for a host without session whose first key read
    fails, the handler fails with that wrapped message, whatever the
    reason of the read failure. *)
Theorem key_failure_reported_as_ssh_error w host command env st e :
  host ≠ "" ->
  command ≠ "" ->
  sessions st !! getSessionKey (Some host) = None ->
  readKey (net w) 0 = KeyFail e ->
  (callTool w "execute_command"
     (Some {| a_host := JString host; a_command := JString command; a_env := env |}) st).2
  = Failed (sshWrapped (keyReadError (privateKeyPathOf (net w)) e)).
Proof.
  intros Hhost Hcmd Hnone Hread.
  assert (executeCommand w command
            {| opt_host := Some host; opt_env := Some (default [] env) |} st
          = (emit (EvReadKey (privateKeyPathOf (net w))) st,
             Rejected (keyReadError (privateKeyPathOf (net w)) e))) as Hexec.
  { unfold executeCommand. cbn [opt_host opt_env]. rewrite truthy_host by done.
    change (default "" (Some host)) with host.
    unfold executeRemote, obtainSession. rewrite Hnone.
    unfold connect. rewrite checkExisting_absent by done.
    unfold maxRetries. by rewrite (connect_loop_key_failure _ _ _ _ _ _ _ e). }
  unfold callTool.
  change (String.eqb "execute_command" "execute_command") with true.
  cbn [negb fmap option_fmap option_map default from_option id a_host a_command a_env
       jsString jsTruthy mbind option_bind].
  assert (truthy (Some command) = true) as ->
    by (unfold truthy; by destruct (String.eqb_spec command "")).
  assert (negb (String.eqb host "") = true) as ->
    by (by destruct (String.eqb_spec host "")).
  cbn [negb]. rewrite Hexec. cbn [snd]. unfold innerCatch.
  by rewrite keyReadError_mentions_SSH.
Qed.

Lemma key_failure_reported_as_ssh_error_witness :
  (callTool noKeyWorld "execute_command"
     (Some {| a_host := JString "web1"; a_command := JString "uptime"; a_env := None |})
     init).2
  = Failed (sshWrapped (keyReadError "/root/.ssh/id_rsa" enoent)).
Proof.
  apply (key_failure_reported_as_ssh_error noKeyWorld "web1" "uptime" None init enoent).
  - discriminate.
  - discriminate.
  - reflexivity.
  - reflexivity.
Defined.

(** X21.  A request without a usable host (absent, empty, or any value
    that counts as false), with a non-empty command, takes the local
    path and nothing of the SSH path: besides re-arming the idle timer
    of the local session, its only effect is to spawn the command, once,
    in the directory of [DEFAULT_DIR]; no key is read and no connection
    dialled.  Once the child has ended and [exec] has called back with
    the arguments [local w], the reply is the output text built from
    them: a failing command is answered with its stdout and its stderr
    or failure message, not with an error. *)
Theorem hostless_request_runs_locally w arguments st :
  jsTruthy (default JUndefined (a_host <$> arguments)) = false ->
  commandOf arguments ≠ "" ->
  exists timers envVars,
    trace (callTool w "execute_command" arguments st).1
    = trace st ++ timers
      ++ [EvSpawn (commandOf arguments) envVars (obj_get "DEFAULT_DIR" (processEnv w))]
    /\ Forall timer_event timers
    /\ (callTool w "execute_command" arguments st).2
       = Replied (replyText (localResult (local w))).
Proof.
  intros Hhost Hcmd.
  assert (truthy (Some (commandOf arguments)) = true) as Ht
    by (unfold truthy; by destruct (String.eqb_spec (commandOf arguments) "")).
  rewrite (callTool_execute w arguments st Ht). cbv zeta. rewrite Hhost.
  rewrite executeCommand_local by done. unfold executeLocal.
  destruct (sessions st !! "local") as [s|]; cbn [fst snd];
    rewrite trace_emit;
    match goal with |- context [resetTimeout ?k ?s0] =>
      destruct (resetTimeout_trace k s0) as (new & -> & Hnew)
    end;
    exists new; eexists; cbn [trace with_sessions];
    (split; [by rewrite <- app_assoc | by split]).
Qed.

Lemma hostless_request_runs_locally_witness :
  exists timers envVars,
    trace (callTool failingLocalWorld "execute_command"
             (Some {| a_host := JString ""; a_command := JString "false"; a_env := None |})
             init).1
    = trace init ++ timers ++ [EvSpawn "false" envVars None]
    /\ Forall timer_event timers
    /\ (callTool failingLocalWorld "execute_command"
          (Some {| a_host := JString ""; a_command := JString "false"; a_env := None |})
          init).2
       = Replied (replyText {| stdout := ""; stderr := "Command failed: false" |}).
Proof.
  apply (hostless_request_runs_locally failingLocalWorld
           (Some {| a_host := JString ""; a_command := JString "false"; a_env := None |})
           init).
  - reflexivity.
  - discriminate.
Defined.
